(** * A shallow embedding of solution.py (diagonal Sudoku solver)

    The Python module is embedded function by function.

    - A Python [str] is a Rocq [string]; iterating over a [str] yields its
      one-character strings ([chars]).
    - The grid [values] is a Python [dict] from box names to digit strings.
      Its iteration order ([values.items()], [values.keys()]) is its insertion
      order, so it is an association list with in-place update ([setitem]).
      Subscripting a missing key raises [KeyError] in Python; [getitem]
      answers the empty string there.  Every dict the solver handles has the
      81 boxes as keys ([reachable_keys], [reduce_puzzle_keys]).
    - The module-level list [assignments] is the state of a small state monad
      [M]; it is kept newest first ([rev] gives the Python list).
    - The static tables [UNITS] and [PEERS] are finite maps; a peer set is a
      [gset].  Python leaves the iteration order of a set open; [elements]
      fixes one.
    - [while] and the recursion of [search] take fuel; the [None] of the
      [option] they return is "out of fuel", and [reduce_puzzle_total] and
      [search_total] show that enough fuel always exists.
    - [display] writes to the standard output; its model gives the lines it
      prints, in order. *)

From Stdlib Require Import Ascii String.
From stdpp Require Import base list strings sorting gmap.

(** ** Python strings *)

Abbreviation len := String.length.

(** [for c in s]: the one-character strings of [s]. *)
Fixpoint chars (s : string) : list string :=
  match s with
  | EmptyString => []
  | String c s' => String c EmptyString :: chars s'
  end.

(** [sub in s] on strings: substring test. *)
Fixpoint str_in (sub s : string) : bool :=
  String.prefix sub s ||
  match s with
  | EmptyString => false
  | String _ s' => str_in sub s'
  end.

(** [s.replace(old, '')]: the occurrences of [old] are cut out from left to
    right, without overlap; [skip] counts the characters of a match still to
    be dropped.  An empty [old] leaves [s] as it is. *)
Fixpoint replace_go (old s : string) (skip : nat) : string :=
  match s with
  | EmptyString => EmptyString
  | String c s' =>
      match skip with
      | S k => replace_go old s' k
      | O => if String.prefix old s
             then replace_go old s' (len old - 1)
             else String c (replace_go old s' 0)
      end
  end.

Definition replace (s old : string) : string :=
  match old with
  | EmptyString => s
  | _ => replace_go old s 0
  end.

(** [enumerate(s, start)] *)
Definition enumerate (s : string) (start : nat) : list (nat * string) :=
  zip (seq start (len s)) (chars s).

(** ** Board constants *)

Definition DIGITS : string := "123456789".
Definition COLS : string := "123456789".
Definition ROWS : string := "ABCDEFGHI".

(** [partition = lambda n, coll: [coll[i:i + n] for i in range(0, len(coll), n)]] *)
Definition partition (n : nat) (coll : string) : list string :=
  (λ k, String.substring (k * n) n coll) <$> seq 0 (Nat.div (len coll + n - 1) n).

(** [cross = lambda a, b: [s + t for s in a for t in b]] *)
Definition cross (a b : string) : list string :=
  s ← chars a; t ← chars b; [s +:+ t].

Definition DUNITS : list (list string) :=
  [ '(i, r) ← enumerate ROWS 1; '(j, c) ← enumerate COLS 1;
      if decide (i + j = 10) then [r +:+ c] else [] ;
    '(i, r) ← enumerate ROWS 1; '(j, c) ← enumerate COLS 1;
      if decide (i = j) then [r +:+ c] else [] ].

Definition SUNITS : list (list string) :=
  rs ← partition 3 ROWS; cs ← partition 3 COLS; [cross rs cs].
Definition RUNITS : list (list string) := (λ r, cross r COLS) <$> chars ROWS.
Definition CUNITS : list (list string) := (λ c, cross ROWS c) <$> chars COLS.
Definition BOXES : list string := cross ROWS COLS.

Definition UNITLIST : list (list string) := DUNITS ++ SUNITS ++ RUNITS ++ CUNITS.

(** [UNITS = dict((box, [u for u in UNITLIST if box in u]) for box in BOXES)] *)
Definition UNITS : gmap string (list (list string)) :=
  list_to_map ((λ box, (box, filter (λ u, box ∈ u) UNITLIST)) <$> BOXES).

(** [PEERS = dict((box, set(sum(UNITS[box], [])) - set([box])) for box in BOXES)] *)
Definition PEERS : gmap string (gset string) :=
  list_to_map
    ((λ box, (box, list_to_set (concat (UNITS !!! box)) ∖ list_to_set [box]))
       <$> BOXES).

(** ** Grid states and the assignment log *)

Abbreviation dict := (list (string * string)).

(** [values[box]] *)
Fixpoint getitem (values : dict) (box : string) : string :=
  match values with
  | [] => ""
  | (k, x) :: rest => if String.eqb k box then x else getitem rest box
  end.

(** [values[box] = value]: an existing key keeps its place, a new one goes to
    the end. *)
Fixpoint setitem (values : dict) (box value : string) : dict :=
  match values with
  | [] => [(box, value)]
  | (k, x) :: rest =>
      if String.eqb k box then (k, value) :: rest
      else (k, x) :: setitem rest box value
  end.

(** [values.keys()] *)
Definition keys (values : dict) : list string := fst <$> values.

(** [dict(zip(ks, xs))] *)
Definition dict_of (ks xs : list string) : dict :=
  foldl (λ d kx, setitem d kx.1 kx.2) [] (zip ks xs).

(** The global [assignments], newest snapshot first. *)
Abbreviation log := (list dict).

(** Computations that append to [assignments]. *)
Definition M (A : Type) : Type := log → A * log.

Definition ret {A} (a : A) : M A := λ assignments, (a, assignments).
Definition bind {A B} (m : M A) (f : A → M B) : M B :=
  λ assignments, let '(a, assignments') := m assignments in f a assignments'.

Notation "'let*' x ':=' m 'in' k" := (bind m (λ x, k))
  (at level 10, x name, m at level 100, k at level 200, only parsing).

(** A [for] loop whose body updates the grid in place. *)
Fixpoint for_each {A} (xs : list A) (body : A → dict → M dict) (values : dict)
  : M dict :=
  match xs with
  | [] => ret values
  | x :: xs' => let* values' := body x values in for_each xs' body values'
  end.

Definition assign_value (values : dict) (box value : string) : M dict :=
  λ assignments,
    let values := setitem values box value in
    (values, if decide (len value = 1) then values :: assignments
             else assignments).

(** ** naked_twins *)

(** [frozenset(s)] for a string [s] *)
Definition frozenset (s : string) : gset string := list_to_set (chars s).

(** [Counter(xs).items()]: the distinct elements in order of first occurrence,
    each with its number of occurrences. *)
Fixpoint counter_add {A} `{EqDecision A} (c : list (A * nat)) (x : A)
  : list (A * nat) :=
  match c with
  | [] => [(x, 1)]
  | (y, n) :: c' => if decide (y = x) then (y, S n) :: c'
                    else (y, n) :: counter_add c' x
  end.
Definition Counter {A} `{EqDecision A} (xs : list A) : list (A * nat) :=
  foldl counter_add [] xs.

(** [reduce(lambda s, d: s.replace(d, ''), ds, digits)] *)
Definition remove_digits (ds : list string) (digits : string) : string :=
  foldl replace digits ds.

(** [twins]: the two-character domains of the unit, as sets, that exactly
    two of its boxes hold.  A unit has no box twice, so [pairs.values()] is
    the list of these sets in the order of the unit. *)
Definition twins_of (unit : list string) (values : dict) : list (gset string) :=
  let pairs :=
    (λ box, (box, frozenset (getitem values box)))
      <$> filter (λ box, len (getitem values box) = 2) unit in
  fst <$> filter (λ pn : gset string * nat, pn.2 = 2) (Counter (snd <$> pairs)).

(** The body of [for box in unit]. *)
Definition naked_twins_box (twins : list (gset string)) (box : string)
    (values : dict) : M dict :=
  let digits := getitem values box in
  if decide (len digits = 1) then ret values
  else if decide (frozenset (getitem values box) ∈ twins) then ret values
  else
    let digits := remove_digits (elements (⋃ twins)) digits in
    assign_value values box digits.

(** The body of [for unit in UNITLIST]. *)
Definition naked_twins_unit (unit : list string) (values : dict) : M dict :=
  let twins := twins_of unit values in
  if decide (length twins = 0) then ret values
  else for_each unit (naked_twins_box twins) values.

Definition naked_twins (values : dict) : M dict :=
  for_each UNITLIST naked_twins_unit values.

(** ** grid_values *)

(** What a call yields: a value, or the [AssertionError] of a failed
    [assert]. *)
Inductive outcome (A : Type) : Type :=
  | Returns (a : A)
  | AssertionError.
Arguments Returns {A} a.
Arguments AssertionError {A}.

(** The test [v in DIGITS or v is DIGITS]: an object that is [DIGITS] is also
    a substring of it, so the second disjunct adds nothing. *)
Definition grid_values (grid : string) : outcome dict :=
  let values := (λ c, if decide (c = ".") then DIGITS else c) <$> chars grid in
  if decide (length values = 81) then
    if forallb (λ v, str_in v DIGITS) values then Returns (dict_of BOXES values)
    else AssertionError
  else AssertionError.

(** ** eliminate *)

Definition eliminate (values : dict) : M dict :=
  let solved := filter (λ cd : string * string, len cd.2 = 1) values in
  for_each solved (λ '(cell, digit) values,
    for_each (elements (PEERS !!! cell)) (λ peer values,
      assign_value values peer (replace (getitem values peer) digit)) values)
    values.

(** ** only_choice *)

(** The body of [for digit in DIGITS]. *)
Definition only_choice_digit (unit : list string) (digit : string)
    (values : dict) : M dict :=
  let only := filter (λ box, str_in digit (getitem values box) = true) unit in
  match only with
  | [box] => assign_value values box digit
  | _ => ret values
  end.

Definition only_choice (values : dict) : M dict :=
  for_each UNITLIST (λ unit values,
    for_each (chars DIGITS) (only_choice_digit unit) values) values.

(** ** reduce_puzzle *)

(** What [reduce_puzzle] returns: [False] or the grid. *)
Inductive reduced : Type :=
  | RFalse
  | RDict (values : dict).

(** [len([box for box in values.keys() if len(values[box]) == n])] *)
Definition count_len (n : nat) (values : dict) : nat :=
  length (filter (λ box, len (getitem values box) = n) (keys values)).

(** One turn of the [while] loop, up to the sanity check. *)
Definition one_pass (values : dict) : M dict :=
  let* values := eliminate values in
  let* values := only_choice values in
  naked_twins values.

Fixpoint reduce_puzzle (fuel : nat) (values : dict) (assignments : log)
  : option (reduced * log) :=
  match fuel with
  | O => None
  | S fuel' =>
      let solved_values_before := count_len 1 values in
      let '(values, assignments) := one_pass values assignments in
      let solved_values_after := count_len 1 values in
      let stalled := bool_decide (solved_values_before = solved_values_after) in
      if decide (count_len 0 values ≠ 0) then Some (RFalse, assignments)
      else if stalled then Some (RDict values, assignments)
      else reduce_puzzle fuel' values assignments
  end.

(** ** search *)

(** What [search] and [solve] return: [False], [None] (the [for] loop ran
    out of digits and the function fell off its end) or the solved grid. *)
Inductive pyval : Type :=
  | PyFalse
  | PyNone
  | PyDict (values : dict).

(** [if result:] *)
Definition truthy (result : pyval) : bool :=
  match result with
  | PyDict (_ :: _) => true
  | _ => false
  end.

(** [a < b] on the two-element lists [[n, box]]. *)
Definition free_lt (a b : nat * string) : bool :=
  (a.1 <? b.1)%nat || ((a.1 =? b.1)%nat && String.ltb a.2 b.2).

(** [min(free)] for a non-empty list: the first of the least elements. *)
Definition py_min (x : nat * string) (xs : list (nat * string)) : nat * string :=
  foldl (λ best y, if free_lt y best then y else best) x xs.

(** [free = [[len(values[box]), box] for box in BOXES if len(values[box]) > 1]] *)
Definition free_boxes (values : dict) : list (nat * string) :=
  (λ box, (len (getitem values box), box))
    <$> filter (λ box, 1 < len (getitem values box)) BOXES.

(** The [for value in values[box]] loop of [search]; [rec] is the recursive
    call.  [hypothesis = values.copy()] is a dict of its own: every turn
    starts from the same [values]. *)
Fixpoint try_values (rec : dict → log → option (pyval * log))
    (values : dict) (box : string) (vs : list string) (assignments : log)
  : option (pyval * log) :=
  match vs with
  | [] => Some (PyNone, assignments)
  | value :: vs' =>
      let hypothesis := values in
      let '(hypothesis, assignments) :=
        assign_value hypothesis box value assignments in
      match rec hypothesis assignments with
      | None => None
      | Some (result, assignments) =>
          if truthy result then Some (result, assignments)
          else try_values rec values box vs' assignments
      end
  end.

Fixpoint search (fuel : nat) (values : dict) (assignments : log)
  : option (pyval * log) :=
  match fuel with
  | O => None
  | S fuel' =>
      match reduce_puzzle fuel values assignments with
      | None => None
      | Some (RFalse, assignments) => Some (PyFalse, assignments)
      | Some (RDict values, assignments) =>
          let free := free_boxes values in
          match free with
          | [] => Some (PyDict values, assignments)
          | f :: fs =>
              let '(n, box) := py_min f fs in
              try_values (search fuel') values box
                (chars (getitem values box)) assignments
          end
      end
  end.

(** ** solve *)

Definition solve (fuel : nat) (grid : string) (assignments : log)
  : outcome (option (pyval * log)) :=
  match grid_values grid with
  | AssertionError => AssertionError
  | Returns values => Returns (search fuel values assignments)
  end.

(** The grid state of a well-formed grid, for the examples. *)
Definition parsed (grid : string) : dict :=
  match grid_values grid with
  | Returns values => values
  | AssertionError => []
  end.

(** The grid of the [__main__] block. *)
Definition diag_sudoku_grid : string :=
  "2.............62....1....7...6..8...3...9...7...6..4...4....8....52.............3".

(** ** display *)

(** [s * n] on a string. *)
Fixpoint str_mul (s : string) (n : nat) : string :=
  match n with
  | O => ""
  | S n' => s +:+ str_mul s n'
  end.

(** [s.center(width)]: CPython pads with [marg / 2 + (marg & width & 1)]
    spaces on the left and the rest on the right. *)
Definition center (s : string) (width : nat) : string :=
  if decide (width ≤ len s) then s
  else
    let marg := width - len s in
    let left := marg / 2 + (if Nat.odd marg && Nat.odd width then 1 else 0) in
    str_mul " " left +:+ s +:+ str_mul " " (marg - left).

(** [1 + max(len(values[s]) for s in BOXES)] *)
Definition display_width (values : dict) : nat :=
  1 + max_list ((λ s, len (getitem values s)) <$> BOXES).

(** ['+'.join(['-' * (width * 3)] * 3)] *)
Definition display_line (width : nat) : string :=
  String.concat "+" (replicate 3 (str_mul "-" (width * 3))).

(** The text of the [print] of row [r]. *)
Definition display_row (values : dict) (width : nat) (r : string) : string :=
  String.concat ""
    ((λ c, center (getitem values (r +:+ c)) width
           +:+ (if str_in c "36" then "|" else "")) <$> chars COLS).

(** The lines that [display] prints, one per [print] call; the bare [print]
    of its last line is an expression without effect. *)
Definition display (values : dict) : list string :=
  let width := display_width values in
  let line := display_line width in
  "" ::
  (r ← chars ROWS;
   display_row values width r :: (if str_in r "CF" then [line] else [])).

(** * The vocabulary of the properties *)

(** The grid a computation yields does not depend on the log it starts from. *)
Definition log_free {A} (m : M A) : Prop :=
  ∀ assignments assignments', (m assignments).1 = (m assignments').1.

(** Every domain of [values'] is a subsequence of the domain the box has in
    [values]. *)
Definition shrinks (values values' : dict) : Prop :=
  ∀ box, chars (getitem values' box) `sublist_of` chars (getitem values box).

(** Every domain is a subsequence of '123456789'. *)
Definition digits_only (values : dict) : Prop :=
  ∀ box, chars (getitem values box) `sublist_of` chars DIGITS.

(** Every box holds one digit, and every unit holds every digit once. *)
Definition solved (values : dict) : Prop :=
  (∀ box, box ∈ BOXES → getitem values box ∈ chars DIGITS) ∧
  ∀ unit, unit ∈ UNITLIST → ∀ digit, digit ∈ chars DIGITS →
    length (filter (λ box, getitem values box = digit) unit) = 1.

(** The sum of the lengths of the domains: it bounds the depth of [search]. *)
Definition total_len (values : dict) : nat :=
  sum_list_with (λ box, len (getitem values box)) BOXES.

(** [w] solves the puzzle [grid]: one digit per box, every digit once in
    every unit, and the clues of [grid] kept. *)
Definition is_solution (grid : string) (w : dict) : Prop :=
  (∀ box, box ∈ BOXES → getitem w box ∈ chars DIGITS) ∧
  (∀ unit, unit ∈ UNITLIST → ∀ digit, digit ∈ chars DIGITS →
     length (filter (λ box, getitem w box = digit) unit) = 1) ∧
  ∀ i box c, BOXES !! i = Some box → chars grid !! i = Some c → c ≠ "." →
    getitem w box = c.

(** A grid with two 5s in row A. *)
Definition two_fives_grid : string :=
  "55......." +:+ "........." +:+ "........." +:+ "........." +:+ "........."
  +:+ "........." +:+ "........." +:+ "........." +:+ ".........".

(** The grid states the solver can be in: a parsed grid, and what the three
    rules and the branch assignment of [search] make of a reachable one. *)
Inductive reachable : dict → Prop :=
  | reachable_parsed grid values :
      grid_values grid = Returns values → reachable values
  | reachable_eliminate values assignments :
      reachable values → reachable (eliminate values assignments).1
  | reachable_only_choice values assignments :
      reachable values → reachable (only_choice values assignments).1
  | reachable_naked_twins values assignments :
      reachable values → reachable (naked_twins values assignments).1
  | reachable_branch values box value assignments :
      reachable values → box ∈ BOXES → value ∈ chars (getitem values box) →
      reachable (assign_value values box value assignments).1.

(** [a < b] on strings. *)
Definition str_lt (a b : string) : Prop := String.ltb a b = true.

#[global] Instance str_lt_dec : RelDecision str_lt.
Proof. intros a b. unfold str_lt. apply _. Defined.

(** The grid a computation yields: it is the same from every log
    ([log_free]). *)
Definition grid_of (m : M dict) : dict := (m []).1.




(** A grid on which the first call stalls while its naked twins A8, A9 make
    B1 the only place left for 8 in row B. *)
Definition stall_grid : string :=
  "1234567.." +:+ "...123..." +:+ "........." +:+ ".8......." +:+ "........."
  +:+ "........." +:+ "........." +:+ "..8......" +:+ ".........".

(** What the recursive call returns for the copy of [v] that has [d] in
    [box]. *)
Definition branch (fuel : nat) (v : dict) (box d : string) : option pyval :=
  fst <$> search fuel (setitem v box d) [].

(** In [values'] every domain is the one of [values] or one of its
    characters. *)
Definition forced (values values' : dict) : Prop :=
  ∀ box, getitem values' box = getitem values box ∨
         getitem values' box ∈ chars (getitem values box).


(** The count that [Counter] holds for [y]. *)
Fixpoint counter_get {A} `{EqDecision A} (c : list (A * nat)) (y : A) : nat :=
  match c with
  | [] => 0
  | (z, n) :: c' => if decide (z = y) then n else counter_get c' y
  end.

(** What the turn of [for box in unit] makes of the domain of its box, when
    the twins of the unit are [twins]. *)
Definition without_twins (twins : list (gset string)) (digits : string) : string :=
  if decide (len digits = 1) then digits
  else if decide (frozenset digits ∈ twins) then digits
  else remove_digits (elements (⋃ twins)) digits.


(** The digits of the solved boxes that have [peer] among their peers. *)
Definition solved_peer_digits (values : dict) (peer : string) : list string :=
  snd <$> filter (λ cd : string * string,
                    len cd.2 = 1 ∧ peer ∈ PEERS !!! cd.1) values.

(** The solution that [solve] finds for [diag_sudoku_grid]. *)
Definition diag_solution : string :=
  "267945381853716249491823576576438192384192657129657438642379815935281764718564923".

(** A grid with 5 in A1 and in I9, both on the main diagonal. *)
Definition diagonal_fives_grid : string :=
  "5........" +:+ "........." +:+ "........." +:+ "........." +:+ "........."
  +:+ "........." +:+ "........." +:+ "........." +:+ "........5".

(** [s] is a solved grid that has in every box a digit of the domain the box
    has in [v]: a solution of the puzzle that the grid state [v] stands for. *)
Definition completes (v s : dict) : Prop :=
  solved s ∧ ∀ box, box ∈ BOXES → getitem s box ∈ chars (getitem v box).

(** The grid of the [__main__] block without the clue 7 of row C:
    propagation stalls on it with 49 open boxes, and the search solves it. *)
Definition branch_grid : string :=
  "2.............62....1........6..8...3...9...7...6..4...4....8....52.............3".

(** The grid of the [__main__] block with a 4 added in B4: propagation
    meets no contradiction on it, and no branch of the search succeeds. *)
Definition dead_end_grid : string :=
  "2...........4.62....1....7...6..8...3...9...7...6..4...4....8....52.............3".



(** * Properties *)

#[global] Arguments eliminate : simpl never.
#[global] Arguments only_choice : simpl never.
#[global] Arguments naked_twins_unit : simpl never.
#[global] Arguments twins_of : simpl never.
#[global] Arguments naked_twins : simpl never.
#[global] Arguments one_pass : simpl never.
#[global] Arguments reduce_puzzle : simpl never.
#[global] Arguments search : simpl never.
#[global] Arguments solve : simpl never.
#[global] Arguments grid_values : simpl never.
#[global] Arguments BOXES : simpl never.
#[global] Arguments UNITLIST : simpl never.
#[global] Arguments UNITS : simpl never.
#[global] Arguments PEERS : simpl never.
#[global] Arguments DIGITS : simpl never.

(** ** Strings *)

Lemma length_chars s : length (chars s) = len s.
Proof. induction s; simpl; congruence. Qed.

Lemma chars_inj s t : chars s = chars t → s = t.
Proof.
  revert t; induction s as [|c s IH]; intros [|c' t] H; simplify_eq/=; auto.
  f_equal; auto.
Qed.

Lemma chars_nil s : chars s = [] ↔ s = "".
Proof. destruct s; naive_solver. Qed.

Lemma elem_of_chars_len d s : d ∈ chars s → len d = 1.
Proof.
  induction s as [|c s IH]; simpl; [by intros ?%elem_of_nil|].
  intros [->|?]%elem_of_cons; auto.
Qed.

Lemma len_1_inv d : len d = 1 → ∃ c, d = String c "".
Proof. destruct d as [|c [|]]; naive_solver. Qed.

Lemma chars_len_1 d : len d = 1 → chars d = [d].
Proof. by intros [c ->]%len_1_inv. Qed.

Lemma prefix_char c s :
  String.prefix (String c "") s =
  match s with String c' _ => bool_decide (c = c') | "" => false end.
Proof.
  destruct s as [|c' s]; simpl; [done|].
  destruct (ascii_dec c c'), s; by repeat case_bool_decide.
Qed.

(** For a one-character needle, [in] is membership among the characters. *)
Lemma str_in_char d s : len d = 1 → str_in d s = true ↔ d ∈ chars s.
Proof.
  intros [c ->]%len_1_inv. induction s as [|c' s IH].
  - simpl. split; [done|by intros ?%elem_of_nil].
  - cbn [str_in chars]. rewrite prefix_char, elem_of_cons, <-IH.
    rewrite orb_true_iff, bool_decide_eq_true. naive_solver.
Qed.

Lemma str_in_empty d : len d = 1 → str_in d "" = false.
Proof. by intros [c ->]%len_1_inv. Qed.

(** [replace] only drops characters. *)
Lemma replace_go_sublist old s k : chars (replace_go old s k) `sublist_of` chars s.
Proof.
  revert k; induction s as [|c s IH]; intros k; [done|].
  cbn [replace_go chars]. destruct k; [|apply sublist_cons, IH].
  destruct (String.prefix old (String c s)); cbn [chars].
  - apply sublist_cons, IH.
  - apply sublist_skip, IH.
Qed.

Lemma replace_sublist s old : chars (replace s old) `sublist_of` chars s.
Proof. destruct old; simpl; [done|apply replace_go_sublist]. Qed.

(** With a one-character [old], [replace] drops exactly its occurrences. *)
Lemma chars_replace_char s d :
  len d = 1 → chars (replace s d) = filter (λ x, x ≠ d) (chars s).
Proof.
  intros [c ->]%len_1_inv. unfold replace.
  induction s as [|c' s IH]; [done|].
  cbn [replace_go chars]. rewrite prefix_char, filter_cons.
  case_bool_decide; subst; simpl.
  - rewrite decide_False by naive_solver. done.
  - rewrite decide_True by naive_solver. simpl. by rewrite IH.
Qed.

Lemma remove_digits_sublist ds s : chars (remove_digits ds s) `sublist_of` chars s.
Proof.
  unfold remove_digits. revert s; induction ds as [|d ds IH]; intros s; simpl; [done|].
  etrans; [apply IH|apply replace_sublist].
Qed.

Lemma chars_remove_digits ds s :
  Forall (λ d, len d = 1) ds →
  chars (remove_digits ds s) = filter (λ x, x ∉ ds) (chars s).
Proof.
  unfold remove_digits. intros Hds; revert s.
  induction Hds as [|d ds Hd Hds IH]; intros s; simpl.
  - induction (chars s) as [|x l IHl]; [done|].
    rewrite filter_cons_True by apply not_elem_of_nil. by f_equal.
  - rewrite IH, chars_replace_char by done.
    rewrite list_filter_filter. apply list_filter_iff.
    intros x. rewrite not_elem_of_cons. tauto.
Qed.

(** ** Dicts *)

Lemma getitem_setitem values box value box' :
  getitem (setitem values box value) box' =
  if decide (box = box') then value else getitem values box'.
Proof.
  induction values as [|[k x] rest IH]; simpl.
  - destruct (String.eqb_spec box box'); by case_decide.
  - destruct (String.eqb_spec k box) as [->|Hk]; simpl.
    + destruct (String.eqb_spec box box'); by case_decide.
    + destruct (String.eqb_spec k box'); [|done].
      subst. by rewrite decide_False by done.
Qed.

Lemma getitem_setitem_eq values box value :
  getitem (setitem values box value) box = value.
Proof. by rewrite getitem_setitem, decide_True. Qed.


Lemma keys_setitem values box value :
  box ∈ keys values → keys (setitem values box value) = keys values.
Proof.
  unfold keys. induction values as [|[k x] rest IH]; simpl.
  - by intros ?%elem_of_nil.
  - destruct (String.eqb_spec k box) as [->|Hk]; [done|].
    intros [?|?]%elem_of_cons; [done|]. simpl. f_equal. auto.
Qed.

Lemma elem_of_getitem values box :
  box ∈ keys values → (box, getitem values box) ∈ values.
Proof.
  unfold keys. induction values as [|[k x] rest IH]; simpl.
  - by intros ?%elem_of_nil.
  - destruct (String.eqb_spec k box) as [->|Hk]; [left|].
    intros [?|?]%elem_of_cons; [done|]. right; auto.
Qed.

Lemma getitem_elem_of values box x :
  NoDup (keys values) → (box, x) ∈ values → getitem values box = x.
Proof.
  unfold keys. induction values as [|[k y] rest IH]; simpl.
  - by intros _ ?%elem_of_nil.
  - intros [Hk Hnd]%NoDup_cons [?|Hin]%elem_of_cons; simplify_eq.
    + by rewrite String.eqb_refl.
    + destruct (String.eqb_spec k box) as [->|]; [|auto].
      destruct Hk. apply list_elem_of_fmap. by exists (box, x).
Qed.

(** Setting a box to the value it has changes nothing. *)
Lemma setitem_getitem values box :
  box ∈ keys values → setitem values box (getitem values box) = values.
Proof.
  unfold keys. induction values as [|[k x] rest IH]; simpl.
  - by intros ?%elem_of_nil.
  - destruct (String.eqb_spec k box) as [->|Hk]; [done|].
    intros [?|?]%elem_of_cons; [done|]. f_equal. auto.
Qed.

(** ** Loops and the log *)

Lemma for_each_app {A} (xs ys : list A) body values assignments :
  for_each (xs ++ ys) body values assignments =
  let '(values', assignments') := for_each xs body values assignments in
  for_each ys body values' assignments'.
Proof.
  revert values assignments; induction xs as [|x xs IH]; intros v l; simpl.
  - done.
  - unfold bind. destruct (body x v l) as [v' l']. apply IH.
Qed.

(** A property of the grid that every turn of a loop keeps holds after it. *)
Lemma for_each_ind {A} (P : dict → Prop) (xs : list A) body :
  (∀ x values assignments, x ∈ xs → P values → P (body x values assignments).1) →
  ∀ values assignments, P values → P (for_each xs body values assignments).1.
Proof.
  induction xs as [|x xs IH]; intros Hbody v l Hv; simpl; [done|].
  unfold bind. destruct (body x v l) as [v' l'] eqn:E.
  apply IH.
  - intros. apply Hbody; [by right|done].
  - specialize (Hbody x v l). rewrite E in Hbody. apply Hbody; [by left|done].
Qed.

Lemma log_free_ret {A} (a : A) : log_free (ret a).
Proof. done. Qed.

Lemma log_free_bind {A B} (m : M A) (f : A → M B) :
  log_free m → (∀ a, log_free (f a)) → log_free (bind m f).
Proof.
  intros Hm Hf l l'. unfold bind. specialize (Hm l l').
  destruct (m l) as [a l1], (m l') as [a' l1']; simpl in *; subst. apply Hf.
Qed.

Lemma log_free_for_each {A} (xs : list A) body values :
  (∀ x values, log_free (body x values)) → log_free (for_each xs body values).
Proof.
  intros Hbody. revert values; induction xs as [|x xs IH]; intros v; simpl.
  - apply log_free_ret.
  - apply log_free_bind; auto.
Qed.

Lemma log_free_assign_value values box value :
  log_free (assign_value values box value).
Proof. done. Qed.

Lemma assign_value_fst values box value assignments :
  (assign_value values box value assignments).1 = setitem values box value.
Proof. done. Qed.

Lemma log_free_eliminate values : log_free (eliminate values).
Proof.
  apply log_free_for_each. intros [cell digit] v.
  apply log_free_for_each. intros. apply log_free_assign_value.
Qed.

Lemma log_free_only_choice values : log_free (only_choice values).
Proof.
  apply log_free_for_each. intros unit v.
  apply log_free_for_each. intros digit v'. unfold only_choice_digit.
  by destruct (filter _ unit) as [|box [|]].
Qed.

Lemma log_free_naked_twins_unit unit values : log_free (naked_twins_unit unit values).
Proof.
  unfold naked_twins_unit. case_decide; [done|].
  apply log_free_for_each. intros. unfold naked_twins_box.
  repeat case_decide; done.
Qed.

Lemma log_free_naked_twins values : log_free (naked_twins values).
Proof. apply log_free_for_each, log_free_naked_twins_unit. Qed.

Lemma log_free_one_pass values : log_free (one_pass values).
Proof.
  apply log_free_bind; [apply log_free_eliminate|]. intros.
  apply log_free_bind; [apply log_free_only_choice|]. intros.
  apply log_free_naked_twins.
Qed.

(** ** Domains only shrink *)

#[global] Instance shrinks_preorder : PreOrder shrinks.
Proof.
  split.
  - by intros v box.
  - intros v1 v2 v3 H12 H23 box. etrans; [apply H23|apply H12].
Qed.

Lemma setitem_shrinks values box value :
  chars value `sublist_of` chars (getitem values box) →
  shrinks values (setitem values box value).
Proof.
  intros Hsub box'. rewrite getitem_setitem. case_decide; by subst.
Qed.

Lemma for_each_shrinks {A} (xs : list A) body :
  (∀ x values assignments, x ∈ xs → shrinks values (body x values assignments).1) →
  ∀ values assignments, shrinks values (for_each xs body values assignments).1.
Proof.
  intros Hbody v l. apply (for_each_ind (shrinks v)); [|done].
  intros x v' l' Hx Hv'. etrans; [done|by apply Hbody].
Qed.

Lemma eliminate_shrinks values assignments :
  shrinks values (eliminate values assignments).1.
Proof.
  apply for_each_shrinks. intros [cell digit] v l _.
  apply for_each_shrinks. intros peer v' l' _.
  apply setitem_shrinks, replace_sublist.
Qed.

Lemma only_choice_shrinks values assignments :
  shrinks values (only_choice values assignments).1.
Proof.
  apply for_each_shrinks. intros unit v l _.
  apply for_each_shrinks. intros digit v' l' Hdigit. unfold only_choice_digit.
  destruct (filter _ unit) as [|box [|]] eqn:E; try done.
  assert (len digit = 1) as Hlen by by eapply elem_of_chars_len.
  assert (box ∈ filter (λ box, str_in digit (getitem v' box) = true) unit) as Hbox
    by (rewrite E; by left).
  apply list_elem_of_filter in Hbox as [Hin _].
  apply setitem_shrinks. rewrite chars_len_1 by done.
  apply singleton_sublist_l. by apply str_in_char.
Qed.

Lemma naked_twins_unit_shrinks unit values assignments :
  shrinks values (naked_twins_unit unit values assignments).1.
Proof.
  unfold naked_twins_unit. case_decide; [done|].
  apply for_each_shrinks. intros box v l _. unfold naked_twins_box.
  repeat case_decide; try done.
  apply setitem_shrinks, remove_digits_sublist.
Qed.

Lemma naked_twins_shrinks values assignments :
  shrinks values (naked_twins values assignments).1.
Proof. apply for_each_shrinks. intros. apply naked_twins_unit_shrinks. Qed.

Lemma one_pass_shrinks values assignments :
  shrinks values (one_pass values assignments).1.
Proof.
  unfold one_pass, bind.
  pose proof (eliminate_shrinks values assignments) as H1.
  destruct (eliminate values assignments) as [v1 l1].
  pose proof (only_choice_shrinks v1 l1) as H2.
  destruct (only_choice v1 l1) as [v2 l2].
  pose proof (naked_twins_shrinks v2 l2) as H3.
  cbn [fst] in *. by do 2 (etrans; [done|]).
Qed.

(** ** The board *)

Lemma length_BOXES : length BOXES = 81.
Proof. reflexivity. Qed.

Lemma NoDup_BOXES : NoDup BOXES.
Proof. apply (bool_decide_unpack _). by vm_compute. Qed.

Lemma length_UNITLIST : length UNITLIST = 29.
Proof. reflexivity. Qed.

(** Every unit has nine different boxes of the board. *)
Lemma UNITLIST_units :
  Forall (λ unit, length unit = 9 ∧ NoDup unit ∧ Forall (λ box, box ∈ BOXES) unit)
    UNITLIST.
Proof. apply (bool_decide_unpack _). by vm_compute. Qed.

Lemma unit_boxes unit box : unit ∈ UNITLIST → box ∈ unit → box ∈ BOXES.
Proof.
  intros Hu Hbox. pose proof UNITLIST_units as H.
  rewrite Forall_forall in H. destruct (H unit Hu) as (_ & _ & Hall).
  rewrite Forall_forall in Hall. auto.
Qed.

Lemma unit_NoDup unit : unit ∈ UNITLIST → NoDup unit.
Proof.
  intros Hu. pose proof UNITLIST_units as H.
  rewrite Forall_forall in H. by destruct (H unit Hu) as (_ & ? & _).
Qed.

Lemma unit_length unit : unit ∈ UNITLIST → length unit = 9.
Proof.
  intros Hu. pose proof UNITLIST_units as H.
  rewrite Forall_forall in H. by destruct (H unit Hu) as (? & _ & _).
Qed.

(** Peers are boxes of the board. *)
Lemma PEERS_boxes cell peer : peer ∈ PEERS !!! cell → peer ∈ BOXES.
Proof.
  assert (map_Forall (λ _ ps, set_Forall (λ p, p ∈ BOXES) ps) PEERS) as H
    by (apply (bool_decide_unpack _); by vm_compute).
  rewrite lookup_total_alt. destruct (PEERS !! cell) as [ps|] eqn:E; cbn [from_option].
  - intros Hp. by apply (H cell ps E).
  - intros Hp. by apply elem_of_empty in Hp.
Qed.

(** Two different boxes of one unit are peers of each other. *)
Lemma unit_peers unit cell peer :
  unit ∈ UNITLIST → cell ∈ unit → peer ∈ unit → cell ≠ peer →
  peer ∈ PEERS !!! cell.
Proof.
  assert (Forall (λ unit, Forall (λ cell, Forall (λ peer,
            cell ≠ peer → peer ∈ PEERS !!! cell) unit) unit) UNITLIST) as H
    by (apply (bool_decide_unpack _); by vm_compute).
  intros Hu Hc Hp. rewrite Forall_forall in H. specialize (H unit Hu).
  rewrite Forall_forall in H. specialize (H cell Hc).
  rewrite Forall_forall in H. by apply H.
Qed.

(** No box is its own peer. *)
Lemma PEERS_irrefl cell : cell ∉ PEERS !!! cell.
Proof.
  assert (map_Forall (λ c ps, c ∉ ps) PEERS) as H
    by (apply (bool_decide_unpack _); by vm_compute).
  rewrite lookup_total_alt. destruct (PEERS !! cell) as [ps|] eqn:E; simpl.
  - by apply (H cell ps E).
  - apply not_elem_of_empty.
Qed.

(** ** The keys of a grid state *)

Lemma assign_value_keys values box value assignments :
  box ∈ BOXES → keys values = BOXES →
  keys (assign_value values box value assignments).1 = BOXES.
Proof.
  intros Hbox Hkeys. rewrite assign_value_fst, keys_setitem; [done|].
  by rewrite Hkeys.
Qed.

Lemma eliminate_keys values assignments :
  keys values = BOXES → keys (eliminate values assignments).1 = BOXES.
Proof.
  apply (for_each_ind (λ v, keys v = BOXES)). intros [cell digit] v l _.
  apply (for_each_ind (λ v, keys v = BOXES)). intros peer v' l' Hpeer.
  apply assign_value_keys. apply elem_of_elements in Hpeer.
  by eapply PEERS_boxes.
Qed.

Lemma only_choice_keys values assignments :
  keys values = BOXES → keys (only_choice values assignments).1 = BOXES.
Proof.
  apply (for_each_ind (λ v, keys v = BOXES)). intros unit v l Hunit.
  apply (for_each_ind (λ v, keys v = BOXES)). intros digit v' l' _ Hkeys.
  unfold only_choice_digit.
  destruct (filter _ unit) as [|box [|]] eqn:E; try done.
  apply assign_value_keys; [|done]. apply (unit_boxes unit); [done|].
  assert (box ∈ filter (λ box, str_in digit (getitem v' box) = true) unit) as Hbox
    by (rewrite E; by left).
  by apply list_elem_of_filter in Hbox as [_ ?].
Qed.

Lemma naked_twins_unit_keys unit values assignments :
  unit ∈ UNITLIST → keys values = BOXES →
  keys (naked_twins_unit unit values assignments).1 = BOXES.
Proof.
  intros Hunit. unfold naked_twins_unit. case_decide; [done|].
  apply (for_each_ind (λ v, keys v = BOXES)). intros box v l Hbox Hkeys.
  unfold naked_twins_box. repeat case_decide; try done.
  apply assign_value_keys; [|done]. by apply (unit_boxes unit).
Qed.

Lemma naked_twins_keys values assignments :
  keys values = BOXES → keys (naked_twins values assignments).1 = BOXES.
Proof.
  apply (for_each_ind (λ v, keys v = BOXES)). intros unit v l Hunit.
  by apply naked_twins_unit_keys.
Qed.

Lemma one_pass_keys values assignments :
  keys values = BOXES → keys (one_pass values assignments).1 = BOXES.
Proof.
  intros Hkeys. unfold one_pass, bind.
  pose proof (eliminate_keys values assignments Hkeys) as H1.
  destruct (eliminate values assignments) as [v1 l1].
  pose proof (only_choice_keys v1 l1 H1) as H2.
  destruct (only_choice v1 l1) as [v2 l2].
  by apply naked_twins_keys.
Qed.

(** ** Counting solved and empty boxes *)

Lemma length_filter_mono {A} (P Q : A → Prop)
    `{!∀ x, Decision (P x)} `{!∀ x, Decision (Q x)} (l : list A) :
  (∀ x, x ∈ l → P x → Q x) → length (filter P l) ≤ length (filter Q l).
Proof.
  induction l as [|x l IH]; intros HPQ; [done|].
  rewrite !filter_cons.
  assert (length (filter P l) ≤ length (filter Q l)) as Hle
    by (apply IH; intros; apply HPQ; [by right|done]).
  destruct (decide (P x)) as [HP|]; destruct (decide (Q x)) as [|HQ]; simpl; try lia.
  destruct HQ. apply HPQ; [by left|done].
Qed.

Lemma count_len_le n values : count_len n values ≤ length (keys values).
Proof. apply length_filter. Qed.

(** No box of the grid has an empty domain. *)
Lemma count_len_0 values :
  count_len 0 values = 0 ↔ ∀ box, box ∈ keys values → getitem values box ≠ "".
Proof.
  unfold count_len. rewrite length_zero_iff_nil. split.
  - intros Hnil box Hbox Hempty.
    assert (box ∈ filter (λ box, len (getitem values box) = 0) (keys values)) as Hin
      by (apply list_elem_of_filter; by rewrite Hempty).
    rewrite Hnil in Hin. by apply elem_of_nil in Hin.
  - intros Hall. apply elem_of_nil_inv. intros box [Hlen Hbox]%list_elem_of_filter.
    apply (Hall box Hbox). by destruct (getitem values box).
Qed.

(** Every box of the grid has a one-character domain. *)
Lemma count_len_1_all values :
  count_len 1 values = length (keys values) ↔
  ∀ box, box ∈ keys values → len (getitem values box) = 1.
Proof.
  unfold count_len. split.
  - intros Hlen box Hbox.
    induction (keys values) as [|k ks IH]; [by apply elem_of_nil in Hbox|].
    rewrite filter_cons in Hlen.
    pose proof (length_filter (λ box, len (getitem values box) = 1) ks).
    destruct (decide (len (getitem values k) = 1)); simpl in *; [|lia].
    apply elem_of_cons in Hbox as [->|?]; [done|]. apply IH; [lia|done].
  - intros Hall. induction (keys values) as [|k ks IH]; [done|].
    rewrite filter_cons_True by (apply Hall; by left). simpl. f_equal.
    apply IH. intros. apply Hall. by right.
Qed.

Lemma shrinks_empty values values' box :
  shrinks values values' → getitem values box = "" → getitem values' box = "".
Proof.
  intros Hsh Hempty. specialize (Hsh box). rewrite Hempty in Hsh.
  apply sublist_nil_r in Hsh. by apply chars_nil.
Qed.

(** A solved box stays as it is unless it becomes empty. *)
Lemma shrinks_solved values values' box :
  shrinks values values' → len (getitem values box) = 1 →
  getitem values' box ≠ "" → getitem values' box = getitem values box.
Proof.
  intros Hsh Hlen Hne. specialize (Hsh box).
  rewrite (chars_len_1 (getitem values box)) in Hsh by done.
  apply sublist_cons_r in Hsh as [Hnil|(l' & Heq & Hl')].
  - apply sublist_nil_r, chars_nil in Hnil. done.
  - apply sublist_nil_r in Hl'. subst l'. apply chars_inj.
    by rewrite Heq, chars_len_1.
Qed.


Lemma shrinks_count_1 values values' :
  shrinks values values' → keys values' = keys values →
  count_len 0 values' = 0 → count_len 1 values ≤ count_len 1 values'.
Proof.
  intros Hsh Hkeys Hne. unfold count_len at 1 2. rewrite Hkeys.
  apply length_filter_mono. intros box Hbox Hlen.
  rewrite (shrinks_solved values values' box); try done.
  rewrite count_len_0 in Hne. apply Hne. by rewrite Hkeys.
Qed.

(** ** reduce_puzzle *)

Lemma reduce_puzzle_S fuel values assignments :
  reduce_puzzle (S fuel) values assignments =
  let values' := (one_pass values assignments).1 in
  let assignments' := (one_pass values assignments).2 in
  if decide (count_len 0 values' ≠ 0) then Some (RFalse, assignments')
  else if bool_decide (count_len 1 values = count_len 1 values')
       then Some (RDict values', assignments')
       else reduce_puzzle fuel values' assignments'.
Proof.
  unfold reduce_puzzle at 1; fold reduce_puzzle.
  by destruct (one_pass values assignments).
Qed.

(** The [while] loop ends: every turn that is not the last one solves a new
    box, and there are 81 boxes. *)
Lemma reduce_puzzle_total fuel values assignments :
  keys values = BOXES → 81 - count_len 1 values < fuel →
  ∃ r assignments', reduce_puzzle fuel values assignments = Some (r, assignments').
Proof.
  revert values assignments.
  induction fuel as [|fuel IH]; intros v l Hkeys Hfuel; [lia|].
  rewrite reduce_puzzle_S. cbv zeta.
  pose proof (one_pass_shrinks v l) as Hsh.
  pose proof (one_pass_keys v l Hkeys) as Hkeys'.
  destruct (one_pass v l) as [v' l']; simpl in *.
  case_decide as Hempty; [by eauto|].
  case_bool_decide as Hstalled; [by eauto|].
  apply IH; [done|].
  assert (count_len 1 v ≤ count_len 1 v')
    by (apply shrinks_count_1; [done|congruence|done]).
  pose proof (count_len_le 1 v') as Hle.
  rewrite Hkeys', length_BOXES in Hle. lia.
Qed.

Lemma reduce_puzzle_fuel fuel fuel' values assignments x :
  reduce_puzzle fuel values assignments = Some x → fuel ≤ fuel' →
  reduce_puzzle fuel' values assignments = Some x.
Proof.
  revert fuel' values assignments.
  induction fuel as [|fuel IH]; intros fuel' v l Hx Hle; [done|].
  destruct fuel' as [|fuel']; [lia|].
  rewrite reduce_puzzle_S in *. cbv zeta in *.
  repeat case_match; try done. apply IH; [done|lia].
Qed.

(** What the loop returns does not depend on the log. *)
Lemma reduce_puzzle_log_free fuel values assignments assignments' :
  fst <$> reduce_puzzle fuel values assignments =
  fst <$> reduce_puzzle fuel values assignments'.
Proof.
  revert values assignments assignments'.
  induction fuel as [|fuel IH]; intros v l l'; [done|].
  rewrite !reduce_puzzle_S. cbv zeta.
  rewrite (log_free_one_pass v l l').
  repeat case_match; auto.
Qed.

(** A grid that [reduce_puzzle] returns comes out of a last turn of the loop
    that solved no new box and left no box empty. *)
Lemma reduce_puzzle_RDict fuel values assignments w assignments' :
  keys values = BOXES →
  reduce_puzzle fuel values assignments = Some (RDict w, assignments') →
  ∃ s l, shrinks values s ∧ keys s = BOXES ∧ w = (one_pass s l).1 ∧
         count_len 0 w = 0 ∧ count_len 1 s = count_len 1 w.
Proof.
  revert values assignments.
  induction fuel as [|fuel IH]; intros v l Hkeys Hred; [done|].
  rewrite reduce_puzzle_S in Hred. cbv zeta in Hred.
  case_decide as Hempty; [done|].
  case_bool_decide as Hstalled.
  - simplify_eq. by exists v, l.
  - destruct (IH _ _ (one_pass_keys v l Hkeys) Hred) as (s & l0 & Hsh & ?).
    exists s, l0. split; [|done]. etrans; [apply one_pass_shrinks|done].
Qed.

Lemma reduce_puzzle_shrinks fuel values assignments w assignments' :
  reduce_puzzle fuel values assignments = Some (RDict w, assignments') →
  shrinks values w.
Proof.
  revert values assignments.
  induction fuel as [|fuel IH]; intros v l Hred; [done|].
  rewrite reduce_puzzle_S in Hred. cbv zeta in Hred.
  case_decide as Hempty; [done|]. case_bool_decide as Hstalled.
  - simplify_eq. apply one_pass_shrinks.
  - etrans; [apply one_pass_shrinks|by eapply IH].
Qed.

Lemma reduce_puzzle_keys fuel values assignments w assignments' :
  keys values = BOXES →
  reduce_puzzle fuel values assignments = Some (RDict w, assignments') →
  keys w = BOXES.
Proof.
  intros Hkeys Hred.
  destruct (reduce_puzzle_RDict _ _ _ _ _ Hkeys Hred) as (s & l & _ & Hs & -> & _).
  by apply one_pass_keys.
Qed.

(** ** grid_values *)

Lemma setitem_fresh values box value :
  box ∉ keys values → setitem values box value = values ++ [(box, value)].
Proof.
  unfold keys. induction values as [|[k x] rest IH]; simpl; [done|].
  intros [Hk Hrest]%not_elem_of_cons.
  destruct (String.eqb_spec k box); [done|]. f_equal. auto.
Qed.

Lemma dict_of_zip ks xs : NoDup ks → dict_of ks xs = zip ks xs.
Proof.
  unfold dict_of. change (zip ks xs) with ([] ++ zip ks xs) at 2.
  assert (∀ k, k ∈ ks → k ∉ keys []) as Hfresh by (intros; apply not_elem_of_nil).
  revert Hfresh. generalize (@nil (string * string)) as acc.
  intros acc Hfresh Hnd. revert acc xs Hfresh.
  induction Hnd as [|k ks Hk Hnd IH]; intros acc xs Hfresh; simpl.
  - by rewrite app_nil_r.
  - destruct xs as [|x xs]; simpl; [by rewrite app_nil_r|].
    rewrite setitem_fresh by (apply Hfresh; by left).
    rewrite IH, <-app_assoc; [done|].
    intros k' Hk'. unfold keys. rewrite fmap_app, elem_of_app. simpl.
    rewrite list_elem_of_singleton. intros [?| ->]; [|done].
    by apply (Hfresh k'); [right|].
Qed.

(** The character test of [grid_values], on the values list. *)
Lemma grid_value_ok c :
  len c = 1 →
  str_in (if decide (c = ".") then DIGITS else c) DIGITS = true ↔
  c ∈ chars DIGITS ∨ c = ".".
Proof.
  intros Hlen. case_decide as Hdot.
  - split; [by right|done].
  - rewrite str_in_char by done. naive_solver.
Qed.

(** The test of the second [assert], on the characters of the grid. *)
Lemma grid_values_chars_ok (grid : string) :
  forallb (λ v, str_in v DIGITS)
    ((λ c, if decide (c = ".") then DIGITS else c) <$> chars grid) = true ↔
  ∀ c, c ∈ chars grid → c ∈ chars DIGITS ∨ c = ".".
Proof.
  rewrite forallb_forall. split.
  - intros H c Hc. apply grid_value_ok; [by eapply elem_of_chars_len|].
    apply H, list_elem_of_In, list_elem_of_fmap. eauto.
  - intros H v (c & -> & Hc)%list_elem_of_In%list_elem_of_fmap.
    apply grid_value_ok; [by eapply elem_of_chars_len|auto].
Qed.

Lemma grid_values_rejects (grid : string) :
  len grid ≠ 81 ∨ (∃ c, c ∈ chars grid ∧ c ∉ chars DIGITS ∧ c ≠ ".") →
  grid_values grid = AssertionError.
Proof.
  intros Hbad. unfold grid_values. cbv zeta.
  rewrite length_fmap, length_chars.
  case_decide as H81; [|done].
  destruct (forallb _ _) eqn:E; [|done].
  destruct Hbad as [?|(c & Hc & Hnd & Hdot)]; [done|].
  destruct (proj1 (grid_values_chars_ok grid) E c Hc); done.
Qed.

Lemma grid_values_accepts (grid : string) :
  len grid = 81 → (∀ c, c ∈ chars grid → c ∈ chars DIGITS ∨ c = ".") →
  ∃ values, grid_values grid = Returns values ∧ keys values = BOXES ∧
    ∀ i box c, BOXES !! i = Some box → chars grid !! i = Some c →
      getitem values box = if decide (c = ".") then DIGITS else c.
Proof.
  intros H81 Hok.
  set (values := (λ c, if decide (c = ".") then DIGITS else c) <$> chars grid).
  assert (length values = 81) as Hlen
    by (unfold values; by rewrite length_fmap, length_chars).
  exists (zip BOXES values).
  assert (keys (zip BOXES values) = BOXES) as Hkeys
    by (apply fst_zip; rewrite length_BOXES; lia).
  split_and!; [|done|].
  - unfold grid_values. cbv zeta. rewrite length_fmap, length_chars.
    rewrite decide_True by done.
    rewrite (proj2 (grid_values_chars_ok grid) Hok).
    by rewrite dict_of_zip by apply NoDup_BOXES.
  - intros i box c Hbox Hc. apply getitem_elem_of.
    + rewrite Hkeys. apply NoDup_BOXES.
    + apply list_elem_of_lookup. exists i. apply lookup_zip_with_Some.
      eexists box, _. split_and!; [done|done|].
      unfold values. by rewrite list_lookup_fmap, Hc.
Qed.

(** C8: a grid whose length is not 81 or that has a character other than
    '1'..'9' and '.' makes [grid_values] fail its [assert], so that [solve]
    raises before it searches; a grid of 81 such characters is parsed into a
    grid state over the 81 boxes that maps each box, in row-major order, to
    its clue or to '123456789'. *)
Theorem grid_values_spec (grid : string) :
  ((len grid ≠ 81 ∨ (∃ c, c ∈ chars grid ∧ c ∉ chars DIGITS ∧ c ≠ ".")) →
   grid_values grid = AssertionError ∧
   ∀ fuel assignments, solve fuel grid assignments = AssertionError) ∧
  (len grid = 81 → (∀ c, c ∈ chars grid → c ∈ chars DIGITS ∨ c = ".") →
   ∃ values, grid_values grid = Returns values ∧ keys values = BOXES ∧
     (∀ fuel assignments,
        solve fuel grid assignments = Returns (search fuel values assignments)) ∧
     ∀ i box c, BOXES !! i = Some box → chars grid !! i = Some c →
       getitem values box = if decide (c = ".") then DIGITS else c).
Proof.
  split.
  - intros Hbad. pose proof (grid_values_rejects grid Hbad) as Hgv.
    split; [done|]. intros fuel l. unfold solve. by rewrite Hgv.
  - intros H81 Hok.
    destruct (grid_values_accepts grid H81 Hok) as (v & Hgv & Hkeys & Hget).
    exists v. split_and!; [done|done| |done].
    intros fuel l. unfold solve. by rewrite Hgv.
Qed.

Lemma grid_values_spec_witness :
  grid_values "12" = AssertionError ∧
  ∃ values, grid_values diag_sudoku_grid = Returns values ∧ keys values = BOXES.
Proof.
  split.
  - apply (proj1 (grid_values_spec "12")). left. simpl. lia.
  - destruct (proj2 (grid_values_spec diag_sudoku_grid)) as (v & ? & ? & _).
    + reflexivity.
    + apply Forall_forall. apply (bool_decide_unpack _). by vm_compute.
    + eauto.
Defined.

(** ** eliminate removes the digit of a solved box from its peers *)

(** A property that the turn for [x] establishes and every turn keeps holds
    after the loop. *)
Lemma for_each_establish {A} (P : dict → Prop) (xs : list A) body x :
  x ∈ xs →
  (∀ values assignments, P (body x values assignments).1) →
  (∀ y values assignments, y ∈ xs → P values → P (body y values assignments).1) →
  ∀ values assignments, P (for_each xs body values assignments).1.
Proof.
  intros (xs1 & xs2 & ->)%list_elem_of_split Hx Hkeep v l.
  rewrite for_each_app. destruct (for_each xs1 body v l) as [v1 l1]. simpl.
  unfold bind. specialize (Hx v1 l1). destruct (body x v1 l1) as [v2 l2].
  apply for_each_ind; [|done].
  intros y v' l' Hy. apply Hkeep. rewrite elem_of_app, elem_of_cons. auto.
Qed.

Lemma shrinks_not_elem_of values values' box d :
  shrinks values values' → d ∉ chars (getitem values box) →
  d ∉ chars (getitem values' box).
Proof. intros Hsh Hd Hd'. apply Hd. by eapply elem_of_sublist. Qed.

Lemma eliminate_removes values assignments cell peer :
  cell ∈ keys values → len (getitem values cell) = 1 → peer ∈ PEERS !!! cell →
  getitem values cell ∉ chars (getitem (eliminate values assignments).1 peer).
Proof.
  intros Hcell Hlen Hpeer. set (digit := getitem values cell).
  unfold eliminate.
  apply (for_each_establish (λ v, digit ∉ chars (getitem v peer)) _ _ (cell, digit)).
  - apply list_elem_of_filter. split; [done|]. by apply elem_of_getitem.
  - intros v l.
    apply (for_each_establish (λ v, digit ∉ chars (getitem v peer)) _ _ peer).
    + by apply elem_of_elements.
    + intros v' l'. rewrite assign_value_fst, getitem_setitem_eq.
      rewrite chars_replace_char by done.
      intros [? _]%list_elem_of_filter. done.
    + intros peer' v' l' _. apply shrinks_not_elem_of.
      rewrite assign_value_fst. apply setitem_shrinks, replace_sublist.
  - intros [cell' digit'] v l _. apply shrinks_not_elem_of.
    apply for_each_shrinks. intros peer' v' l' _.
    apply setitem_shrinks, replace_sublist.
Qed.

(** ** Domains are digit strings *)

Lemma shrinks_digits_only values values' :
  shrinks values values' → digits_only values → digits_only values'.
Proof. intros Hsh Hv box. etrans; [apply Hsh|apply Hv]. Qed.

Lemma getitem_not_in_keys values box : box ∉ keys values → getitem values box = "".
Proof.
  unfold keys. induction values as [|[k x] rest IH]; simpl; [done|].
  intros [Hk Hrest]%not_elem_of_cons.
  destruct (String.eqb_spec k box); [done|auto].
Qed.

Lemma grid_values_digits_only grid values :
  grid_values grid = Returns values → keys values = BOXES ∧ digits_only values.
Proof.
  intros Hgv.
  destruct (decide (len grid = 81)) as [H81|H81]; cycle 1.
  { rewrite grid_values_rejects in Hgv; [done|by left]. }
  destruct (decide (Forall (λ c, c ∈ chars DIGITS ∨ c = ".") (chars grid)))
    as [Hok|Hbad]; cycle 1.
  { apply not_Forall_Exists, Exists_exists in Hbad as (c & Hc & Hbad); [|apply _].
    rewrite grid_values_rejects in Hgv; [done|].
    right. exists c. naive_solver. }
  rewrite Forall_forall in Hok.
  destruct (grid_values_accepts grid H81 Hok) as (v & Hv & Hkeys & Hget).
  assert (v = values) as -> by congruence. split; [done|].
  intros box. destruct (decide (box ∈ BOXES)) as [Hbox|Hbox].
  - apply list_elem_of_lookup in Hbox as [i Hi].
    assert (i < length (chars grid)) as Hlt.
    { rewrite length_chars, H81, <-length_BOXES. by eapply lookup_lt_Some. }
    apply lookup_lt_is_Some in Hlt as [c Hc].
    rewrite (Hget i box c Hi Hc).
    assert (c ∈ chars grid) as Hin by by eapply list_elem_of_lookup_2.
    case_decide; [done|]. destruct (Hok c Hin) as [Hd|?]; [|done].
    rewrite chars_len_1 by by eapply elem_of_chars_len.
    by apply singleton_sublist_l.
  - rewrite getitem_not_in_keys by by rewrite Hkeys. apply sublist_nil_l.
Qed.

(** ** Solved grids *)

Lemma filter_eq_once {A B} `{EqDecision B} (f : A → B) (l : list A) (d : B) :
  NoDup (f <$> l) → d ∈ f <$> l → length (filter (λ x, f x = d) l) = 1.
Proof.
  induction l as [|x l IH]; simpl; [by intros _ ?%elem_of_nil|].
  intros [Hx Hnd]%NoDup_cons Hd. rewrite filter_cons.
  case_decide as Hfx; simpl.
  - f_equal. apply length_zero_iff_nil, elem_of_nil_inv.
    intros y [Hy Hin]%list_elem_of_filter. apply Hx.
    rewrite Hfx, <-Hy. by apply list_elem_of_fmap_2.
  - apply IH; [done|]. apply elem_of_cons in Hd as [?|?]; [congruence|done].
Qed.

Lemma one_pass_split values assignments :
  ∃ l1 l2,
    (one_pass values assignments).1 =
    (naked_twins (only_choice (eliminate values assignments).1 l1).1 l2).1.
Proof.
  unfold one_pass, bind. destruct (eliminate values assignments) as [v1 l1].
  destruct (only_choice v1 l1) as [v2 l2] eqn:E. exists l1, l2. cbn [fst].
  by rewrite E.
Qed.

Lemma eliminate_one_pass_shrinks values assignments assignments' :
  shrinks (eliminate values assignments).1 (one_pass values assignments').1.
Proof.
  destruct (one_pass_split values assignments') as (l1 & l2 & ->).
  rewrite (log_free_eliminate values assignments assignments').
  etrans; [apply only_choice_shrinks|apply naked_twins_shrinks].
Qed.

(** A turn of the loop that starts with 81 digits and leaves no box empty
    started from a solved grid, and changed nothing. *)
Lemma stalled_full_solved s l :
  keys s = BOXES → digits_only s →
  count_len 0 (one_pass s l).1 = 0 →
  count_len 1 s = count_len 1 (one_pass s l).1 →
  (∀ box, box ∈ BOXES → len (getitem (one_pass s l).1 box) ≤ 1) →
  solved (one_pass s l).1.
Proof.
  intros Hkeys Hdig Hempty Hcount Hfree. set (w := (one_pass s l).1) in *.
  assert (keys w = BOXES) as Hkeysw by by apply one_pass_keys.
  assert (shrinks s w) as Hsh by apply one_pass_shrinks.
  rewrite count_len_0, Hkeysw in Hempty.
  assert (∀ box, box ∈ BOXES → len (getitem w box) = 1) as Hone.
  { intros box Hbox. specialize (Hfree box Hbox). specialize (Hempty box Hbox).
    destruct (getitem w box) as [|? [|]]; simpl in *; try done; lia. }
  assert (∀ box, box ∈ BOXES → len (getitem s box) = 1) as Hones.
  { rewrite <-Hkeys. apply count_len_1_all. rewrite Hcount, Hkeys, <-Hkeysw.
    apply count_len_1_all. by rewrite Hkeysw. }
  assert (∀ box, box ∈ BOXES → getitem w box = getitem s box) as Hsame.
  { intros box Hbox. apply shrinks_solved; auto. }
  assert (∀ cell peer, cell ∈ BOXES → peer ∈ PEERS !!! cell →
            getitem w cell ≠ getitem w peer) as Hdiff.
  { intros cell peer Hcell Hpeer Heq.
    assert (peer ∈ BOXES) as Hpeer' by by eapply PEERS_boxes.
    apply (eliminate_removes s l cell peer); [by rewrite Hkeys|auto|done|].
    eapply elem_of_sublist; [|apply (eliminate_one_pass_shrinks s l l)].
    fold w. rewrite <-Hsame, Heq by done.
    rewrite chars_len_1 by auto. by left. }
  assert (∀ box, box ∈ BOXES → getitem w box ∈ chars DIGITS) as Hdigit.
  { intros box Hbox. apply singleton_sublist_l.
    rewrite <-chars_len_1 by auto. by apply (shrinks_digits_only s w). }
  split; [done|]. intros unit Hunit digit Hd.
  assert (NoDup (getitem w <$> unit)) as Hnd.
  { apply NoDup_fmap_2_strong; [|by apply unit_NoDup].
    intros cell peer Hcell Hpeer Heq. destruct (decide (cell = peer)); [done|].
    destruct (Hdiff cell peer); [by eapply unit_boxes| |done].
    by apply (unit_peers unit). }
  apply filter_eq_once; [done|].
  assert (incl (chars DIGITS) (getitem w <$> unit)) as Hincl.
  { apply NoDup_length_incl;
      [apply NoDup_ListNoDup, Hnd|rewrite length_fmap, (unit_length unit) by done; simpl; lia|].
    intros x (box & -> & Hbox)%list_elem_of_In%list_elem_of_fmap.
    apply list_elem_of_In, Hdigit. by eapply unit_boxes. }
  by apply list_elem_of_In, Hincl, list_elem_of_In.
Qed.

(** ** search: the choice of the box *)

Lemma ltb_le s1 s2 : String.ltb s1 s2 = true ↔ String.le s1 s2 ∧ s1 ≠ s2.
Proof.
  unfold String.le, String.ltb, String.leb.
  destruct (String.compare s1 s2) eqn:E; simpl.
  - apply String.compare_eq_iff in E. naive_solver.
  - split; [|done]. intros _. split; [done|]. intros ->.
    pose proof (String.compare_antisym s2 s2) as H. by rewrite E in H.
  - naive_solver.
Qed.

Lemma ltb_trans s1 s2 s3 :
  String.ltb s1 s2 = true → String.ltb s2 s3 = true → String.ltb s1 s3 = true.
Proof.
  rewrite !ltb_le. intros [H12 Hne12] [H23 Hne23]. split; [by etrans|].
  intros ->. apply Hne12. by apply (anti_symm String.le).
Qed.

Lemma free_lt_trans a b c :
  free_lt a b = true → free_lt b c = true → free_lt a c = true.
Proof.
  unfold free_lt. rewrite !orb_true_iff, !andb_true_iff.
  rewrite !Nat.ltb_lt, !Nat.eqb_eq.
  intros [?|[? ?]] [?|[? ?]]; try (left; lia).
  right. split; [lia|]. by eapply ltb_trans.
Qed.

Lemma py_min_in x xs : py_min x xs ∈ x :: xs.
Proof.
  unfold py_min. revert x; induction xs as [|y xs IH]; intros x; simpl; [by left|].
  specialize (IH (if free_lt y x then y else x)).
  apply elem_of_cons in IH as [->|?]; [|by do 2 right].
  destruct (free_lt y x); [right|]; by left.
Qed.

(** No element of the list is below the minimum. *)
Lemma py_min_least x xs y : y ∈ x :: xs → free_lt y (py_min x xs) = false.
Proof.
  assert (∀ a, free_lt a a = false) as Hirr.
  { intros [n s]. unfold free_lt. simpl. rewrite Nat.ltb_irrefl, Nat.eqb_refl. simpl.
    apply not_true_is_false. rewrite ltb_le. naive_solver. }
  assert (∀ seen x, (∀ z, z ∈ seen → free_lt z x = false) →
            ∀ z, z ∈ seen ++ xs → free_lt z (py_min x xs) = false) as Hgen.
  { clear x y. unfold py_min. induction xs as [|y xs IH]; intros seen x Hseen z Hz; simpl.
    - rewrite app_nil_r in Hz. auto.
    - apply (IH (seen ++ [y])); [|by rewrite <-app_assoc].
      intros z' [Hz'|Hz']%elem_of_app.
      + destruct (free_lt y x) eqn:Hyx; [|auto].
        apply not_true_is_false. intros Hz'y.
        pose proof (free_lt_trans _ _ _ Hz'y Hyx). by rewrite Hseen in *.
      + apply list_elem_of_singleton in Hz' as ->.
        destruct (free_lt y x) eqn:Hyx; auto. }
  intros Hy. apply (Hgen [x]); [|done].
  by intros z ->%list_elem_of_singleton.
Qed.

(** ** search: the loop over the digits *)

Lemma search_S fuel values assignments :
  search (S fuel) values assignments =
  match reduce_puzzle (S fuel) values assignments with
  | None => None
  | Some (RFalse, assignments) => Some (PyFalse, assignments)
  | Some (RDict values, assignments) =>
      match free_boxes values with
      | [] => Some (PyDict values, assignments)
      | f :: fs =>
          try_values (search fuel) values (py_min f fs).2
            (chars (getitem values (py_min f fs).2)) assignments
      end
  end.
Proof.
  unfold search at 1; fold search.
  destruct (reduce_puzzle (S fuel) values assignments) as [[[|v] l]|]; try done.
  destruct (free_boxes v) as [|f fs]; [done|]. by destruct (py_min f fs).
Qed.

Lemma try_values_S rec values box value vs assignments :
  try_values rec values box (value :: vs) assignments =
  match rec (setitem values box value)
          (assign_value values box value assignments).2 with
  | None => None
  | Some (result, assignments') =>
      if truthy result then Some (result, assignments')
      else try_values rec values box vs assignments'
  end.
Proof. done. Qed.

(** A grid that the loop returns is the truthy result of the recursive call
    on the copy with one of the digits assigned. *)
Lemma try_values_PyDict rec values box vs assignments w assignments' :
  try_values rec values box vs assignments = Some (PyDict w, assignments') →
  ∃ value l, value ∈ vs ∧ rec (setitem values box value) l = Some (PyDict w, assignments').
Proof.
  revert assignments; induction vs as [|value vs IH]; intros l; [done|].
  rewrite try_values_S.
  destruct (rec _ _) as [[r l1]|] eqn:E; [|done].
  destruct (truthy r) eqn:Hr.
  - intros ?; simplify_eq. eexists value, _. split; [by left|done].
  - intros (value' & l2 & ? & ?)%IH. exists value', l2. split; [by right|done].
Qed.

Lemma try_values_total rec values box vs assignments :
  (∀ value l, value ∈ vs → ∃ r l', rec (setitem values box value) l = Some (r, l')) →
  ∃ r l', try_values rec values box vs assignments = Some (r, l').
Proof.
  revert assignments; induction vs as [|value vs IH]; intros l Hrec; [by eexists _, _|].
  rewrite try_values_S.
  destruct (Hrec value (assign_value values box value l).2) as (r & l1 & ->); [by left|].
  destruct (truthy r); [by eauto|]. apply IH. intros. apply Hrec. by right.
Qed.

Lemma try_values_mono (rec rec' : dict → log → option (pyval * log))
    values box vs assignments x :
  (∀ v l y, rec v l = Some y → rec' v l = Some y) →
  try_values rec values box vs assignments = Some x →
  try_values rec' values box vs assignments = Some x.
Proof.
  intros Hrec. revert assignments; induction vs as [|value vs IH]; intros l; [done|].
  rewrite !try_values_S.
  destruct (rec _ _) as [[r l1]|] eqn:E; [|done].
  rewrite (Hrec _ _ _ E). destruct (truthy r); auto.
Qed.

Lemma try_values_log_free (rec : dict → log → option (pyval * log))
    values box vs assignments assignments' :
  (∀ v l l', fst <$> rec v l = fst <$> rec v l') →
  fst <$> try_values rec values box vs assignments =
  fst <$> try_values rec values box vs assignments'.
Proof.
  intros Hrec. revert assignments assignments'.
  induction vs as [|value vs IH]; intros l l'; [done|].
  rewrite !try_values_S.
  specialize (Hrec (setitem values box value)
    (assign_value values box value l).2 (assign_value values box value l').2).
  destruct (rec _ (assign_value values box value l).2) as [[r l1]|],
    (rec _ (assign_value values box value l').2) as [[r' l1']|];
    simplify_eq/=; [|done].
  destruct (truthy r'); [done|apply IH].
Qed.

(** ** search returns solved grids only *)

Lemma elem_of_free_boxes values x :
  x ∈ free_boxes values ↔
  ∃ box, x = (len (getitem values box), box) ∧ 1 < len (getitem values box) ∧
         box ∈ BOXES.
Proof.
  unfold free_boxes. rewrite list_elem_of_fmap.
  setoid_rewrite list_elem_of_filter. naive_solver.
Qed.

Lemma py_min_box values f fs :
  free_boxes values = f :: fs →
  (py_min f fs).2 ∈ BOXES ∧ 1 < len (getitem values (py_min f fs).2) ∧
  (py_min f fs).1 = len (getitem values (py_min f fs).2).
Proof.
  intros Hfree. pose proof (py_min_in f fs) as Hin. rewrite <-Hfree in Hin.
  apply elem_of_free_boxes in Hin as (box & -> & ? & ?). done.
Qed.

Lemma setitem_value_shrinks values box value :
  value ∈ chars (getitem values box) → shrinks values (setitem values box value).
Proof.
  intros Hvalue. apply setitem_shrinks.
  rewrite chars_len_1 by by eapply elem_of_chars_len.
  by apply singleton_sublist_l.
Qed.

Lemma search_sound fuel values assignments w assignments' :
  keys values = BOXES → digits_only values →
  search fuel values assignments = Some (PyDict w, assignments') →
  solved w ∧ shrinks values w ∧ keys w = BOXES.
Proof.
  revert values assignments.
  induction fuel as [|fuel IH]; intros values l Hkeys Hdig; [done|].
  rewrite search_S.
  destruct (reduce_puzzle (S fuel) values l) as [[[|v] l1]|] eqn:Hred; try done.
  pose proof (reduce_puzzle_shrinks _ _ _ _ _ Hred) as Hsh.
  pose proof (reduce_puzzle_keys _ _ _ _ _ Hkeys Hred) as Hkeysv.
  destruct (free_boxes v) as [|f fs] eqn:Hfree.
  - intros ?; simplify_eq.
    destruct (reduce_puzzle_RDict _ _ _ _ _ Hkeys Hred)
      as (s & l0 & Hs & Hkeyss & -> & Hempty & Hcount).
    split_and!; [|done|done].
    apply stalled_full_solved; try done; [by eapply shrinks_digits_only|].
    intros box Hbox. apply Nat.nlt_ge. intros Hlt.
    assert ((len (getitem (one_pass s l0).1 box), box) ∈ free_boxes (one_pass s l0).1)
      as Hin by (apply elem_of_free_boxes; eauto).
    rewrite Hfree in Hin. by apply elem_of_nil in Hin.
  - destruct (py_min_box v f fs Hfree) as (Hbox & _ & _).
    intros (value & l2 & Hvalue & Hrec)%try_values_PyDict.
    pose proof (setitem_value_shrinks v _ value Hvalue) as Hsh'.
    destruct (IH _ _ (eq_trans (keys_setitem v _ value
                 ltac:(by rewrite Hkeysv)) Hkeysv)
                (shrinks_digits_only _ _ (transitivity Hsh Hsh') Hdig) Hrec)
      as (? & ? & ?).
    split_and!; [done| |done]. by do 2 (etrans; [done|]).
Qed.

(** ** search terminates *)

Lemma sum_list_with_le {A} (f g : A → nat) (l : list A) :
  (∀ x, x ∈ l → f x ≤ g x) → sum_list_with f l ≤ sum_list_with g l.
Proof.
  induction l as [|x l IH]; intros Hfg; [done|]. simpl.
  pose proof (Hfg x ltac:(by left)).
  assert (sum_list_with f l ≤ sum_list_with g l)
    by (apply IH; intros; apply Hfg; by right).
  lia.
Qed.

Lemma sum_list_with_lt {A} (f g : A → nat) (l : list A) x :
  (∀ y, y ∈ l → f y ≤ g y) → x ∈ l → f x < g x →
  sum_list_with f l < sum_list_with g l.
Proof.
  intros Hfg (l1 & l2 & ->)%list_elem_of_split Hx.
  rewrite !sum_list_with_app. simpl.
  assert (sum_list_with f l1 ≤ sum_list_with g l1)
    by (apply sum_list_with_le; intros; apply Hfg; rewrite elem_of_app; auto).
  assert (sum_list_with f l2 ≤ sum_list_with g l2).
  { apply sum_list_with_le; intros; apply Hfg.
    rewrite elem_of_app, elem_of_cons; auto. }
  lia.
Qed.

Lemma total_len_shrinks values values' :
  shrinks values values' → total_len values' ≤ total_len values.
Proof.
  intros Hsh. apply sum_list_with_le. intros box _.
  rewrite <-!length_chars. apply sublist_length, Hsh.
Qed.

Lemma total_len_setitem values box value :
  box ∈ BOXES → len value < len (getitem values box) →
  total_len (setitem values box value) < total_len values.
Proof.
  intros Hbox Hlt. apply (sum_list_with_lt _ _ _ box); [|done|].
  - intros box' _. rewrite getitem_setitem. case_decide; subst; lia.
  - by rewrite getitem_setitem_eq.
Qed.

Lemma total_len_digits_only values : digits_only values → total_len values ≤ 729.
Proof.
  intros Hdig. change 729 with (sum_list_with (λ _ : string, 9) BOXES).
  apply sum_list_with_le. intros box _. rewrite <-length_chars.
  apply (sublist_length _ _ (Hdig box)).
Qed.

(** Enough fuel: 82 turns of the loop and one call per character of the
    domains. *)
Lemma search_total fuel values assignments :
  keys values = BOXES → 82 + total_len values ≤ fuel →
  ∃ r assignments', search fuel values assignments = Some (r, assignments').
Proof.
  revert values assignments.
  induction fuel as [|fuel IH]; intros values l Hkeys Hfuel; [lia|].
  rewrite search_S.
  destruct (reduce_puzzle_total (S fuel) values l Hkeys) as (r & l1 & Hred); [lia|].
  rewrite Hred. destruct r as [|v]; [by eauto|].
  pose proof (reduce_puzzle_shrinks _ _ _ _ _ Hred) as Hsh.
  pose proof (reduce_puzzle_keys _ _ _ _ _ Hkeys Hred) as Hkeysv.
  destruct (free_boxes v) as [|f fs] eqn:Hfree; [by eauto|].
  destruct (py_min_box v f fs Hfree) as (Hbox & Hlen & _).
  apply try_values_total. intros value l2 Hvalue. apply IH.
  - rewrite keys_setitem; [done|by rewrite Hkeysv].
  - pose proof (total_len_shrinks _ _ Hsh).
    pose proof (total_len_setitem v _ value Hbox) as Hlt.
    rewrite (elem_of_chars_len value _ Hvalue) in Hlt. lia.
Qed.

Lemma search_fuel fuel fuel' values assignments x :
  search fuel values assignments = Some x → fuel ≤ fuel' →
  search fuel' values assignments = Some x.
Proof.
  revert fuel' values assignments x.
  induction fuel as [|fuel IH]; intros fuel' values l x Hx Hle; [done|].
  destruct fuel' as [|fuel']; [lia|]. rewrite search_S in *.
  destruct (reduce_puzzle (S fuel) values l) as [[r l1]|] eqn:Hred; [|done].
  rewrite (reduce_puzzle_fuel _ (S fuel') _ _ _ Hred) by lia.
  destruct r as [|v]; [done|]. destruct (free_boxes v) as [|f fs]; [done|].
  eapply try_values_mono; [|done]. intros. eapply IH; [done|lia].
Qed.

(** What [search] returns does not depend on the log. *)
Lemma search_log_free fuel values assignments assignments' :
  fst <$> search fuel values assignments = fst <$> search fuel values assignments'.
Proof.
  revert values assignments assignments'.
  induction fuel as [|fuel IH]; intros values l l'; [done|].
  rewrite !search_S.
  pose proof (reduce_puzzle_log_free (S fuel) values l l') as Hred.
  destruct (reduce_puzzle (S fuel) values l) as [[r l1]|],
    (reduce_puzzle (S fuel) values l') as [[r' l1']|]; simplify_eq/=; [|done].
  destruct r' as [|v]; [done|]. destruct (free_boxes v) as [|f fs]; [done|].
  by apply try_values_log_free.
Qed.

(** Two boxes of one unit with the same clue: the first turn of the loop
    empties both, and [search] returns [False]. *)
Lemma search_same_clue fuel values assignments unit cell peer :
  keys values = BOXES → unit ∈ UNITLIST → cell ∈ unit → peer ∈ unit →
  cell ≠ peer → len (getitem values cell) = 1 →
  getitem values peer = getitem values cell →
  ∃ assignments', search (S fuel) values assignments = Some (PyFalse, assignments').
Proof.
  intros Hkeys Hunit Hcell Hpeer Hne Hlen Hsame.
  rewrite search_S, reduce_puzzle_S. cbv zeta.
  assert (getitem (one_pass values assignments).1 peer = "") as Hempty.
  { apply (shrinks_empty _ _ _
             (eliminate_one_pass_shrinks values assignments assignments)).
    pose proof (eliminate_removes values assignments cell peer) as Hrm.
    pose proof (eliminate_shrinks values assignments peer) as Hsub.
    rewrite Hsame, (chars_len_1 _ Hlen) in Hsub.
    apply sublist_cons_r in Hsub as [Hnil|(l' & Heq & _)].
    - by apply sublist_nil_r, chars_nil in Hnil.
    - destruct Hrm.
      + rewrite Hkeys. by eapply unit_boxes.
      + done.
      + by apply (unit_peers unit).
      + rewrite Heq. by left. }
  rewrite decide_True; [by eauto|].
  intros Hzero. rewrite count_len_0 in Hzero. apply (Hzero peer); [|done].
  rewrite one_pass_keys by done. by eapply unit_boxes.
Qed.

(** C1: when [solve] returns a grid, the grid maps each of the 81 boxes to
    one digit, and each of the 29 units (the two diagonals, the nine squares,
    the nine rows and the nine columns) holds each digit '1'..'9' exactly
    once. *)
Theorem solve_solved grid fuel assignments values assignments' :
  solve fuel grid assignments = Returns (Some (PyDict values, assignments')) →
  keys values = BOXES ∧ length UNITLIST = 29 ∧
  (∀ box, box ∈ BOXES → getitem values box ∈ chars DIGITS) ∧
  ∀ unit, unit ∈ UNITLIST → ∀ digit, digit ∈ chars DIGITS →
    length (filter (λ box, getitem values box = digit) unit) = 1.
Proof.
  unfold solve. destruct (grid_values grid) as [v|] eqn:Hgv; [|done].
  intros Hsearch. simplify_eq.
  destruct (grid_values_digits_only _ _ Hgv) as [Hkeys Hdig].
  destruct (search_sound _ _ _ _ _ Hkeys Hdig Hsearch) as ([? ?] & ? & ?).
  done.
Qed.

Lemma solve_solved_witness :
  ∃ values,
    match solve 100 diag_sudoku_grid [] with
    | Returns (Some (PyDict w, _)) => Some w
    | _ => None
    end = Some values ∧
    keys values = BOXES ∧
    ∀ unit, unit ∈ UNITLIST → ∀ digit, digit ∈ chars DIGITS →
      length (filter (λ box, getitem values box = digit) unit) = 1.
Proof.
  assert (match solve 100 diag_sudoku_grid [] with
          | Returns (Some (PyDict w, _)) => true
          | _ => false
          end = true) as Hrun by (vm_compute; reflexivity).
  destruct (solve 100 diag_sudoku_grid []) as [[[[| |w] l]|]|] eqn:E;
    try discriminate Hrun.
  exists w. split; [reflexivity|].
  destruct (solve_solved _ _ _ _ _ E) as (Hkeys & _ & _ & Hunits).
  exact (conj Hkeys Hunits).
Defined.

(** ** Grids without a solution *)

(** C2: on every grid of 81 characters '1'..'9' and '.', [solve] ends
    without an error (811 units of fuel are enough, whatever the log) and
    returns the same value [r] from then on: [False], [None] or a grid.  A
    returned grid solves the puzzle and is truthy; so when the puzzle has no
    solution [r] is [False] or [None], which are falsy; and when two boxes of
    a row hold the same clue [r] is [False]. *)
Theorem solve_unsolvable grid :
  len grid = 81 → (∀ c, c ∈ chars grid → c ∈ chars DIGITS ∨ c = ".") →
  ∃ r,
    (∀ fuel assignments, 811 ≤ fuel →
       ∃ assignments',
         solve fuel grid assignments = Returns (Some (r, assignments'))) ∧
    (∀ w, r = PyDict w → is_solution grid w ∧ truthy r = true) ∧
    ((∀ w, ¬ is_solution grid w) →
       (r = PyFalse ∨ r = PyNone) ∧ truthy r = false) ∧
    (∀ unit i j b1 b2 d,
       unit ∈ RUNITS → i ≠ j → BOXES !! i = Some b1 → BOXES !! j = Some b2 →
       b1 ∈ unit → b2 ∈ unit →
       chars grid !! i = Some d → chars grid !! j = Some d → d ≠ "." →
       r = PyFalse).
Proof.
  intros H81 Hok.
  destruct (grid_values_accepts grid H81 Hok) as (v & Hgv & Hkeys & Hget).
  assert (∀ fuel l, solve fuel grid l = Returns (search fuel v l)) as Hsolve
    by (intros; unfold solve; by rewrite Hgv).
  destruct (grid_values_digits_only _ _ Hgv) as [_ Hdig].
  pose proof (total_len_digits_only v Hdig) as Htotal.
  destruct (search_total 811 v [] Hkeys) as (r & l0 & Hr); [lia|].
  assert (∀ fuel l, 811 ≤ fuel → ∃ l', search fuel v l = Some (r, l')) as Hrun.
  { intros fuel l Hfuel.
    destruct (search_total fuel v l Hkeys) as (r' & l' & Hr'); [lia|].
    pose proof (search_log_free fuel v l []) as Hfree.
    rewrite Hr', (search_fuel _ _ _ _ _ Hr Hfuel) in Hfree.
    simplify_eq/=. eauto. }
  assert (∀ w, r = PyDict w → is_solution grid w ∧ truthy r = true) as Hsound.
  { intros w ->.
    destruct (search_sound _ _ _ _ _ Hkeys Hdig Hr) as ([Hone Hunits] & Hsh & Hkeysw).
    split; [split_and!; [done|done|]|].
    - intros i box c Hbox Hc Hdot.
      assert (box ∈ BOXES) as Hin by by eapply list_elem_of_lookup_2.
      assert (c ∈ chars grid) as Hcin by by eapply list_elem_of_lookup_2.
      assert (getitem v box = c) as Hv
        by by rewrite (Hget i box c Hbox Hc), decide_False.
      rewrite <-Hv at 1. apply shrinks_solved; [done| |].
      + rewrite Hv. by eapply elem_of_chars_len.
      + intros Hempty. specialize (Hone box Hin). rewrite Hempty in Hone.
        by apply elem_of_chars_len in Hone.
    - destruct w; [|done]. pose proof length_BOXES as H. by rewrite <-Hkeysw in H. }
  exists r. split_and!.
  - intros fuel l Hfuel. rewrite Hsolve.
    destruct (Hrun fuel l Hfuel) as [l' ->]. eauto.
  - done.
  - intros Hnone. destruct r as [| |w]; [by auto..|].
    destruct (Hnone w). by apply Hsound.
  - intros unit i j b1 b2 d Hunit Hij Hb1 Hb2 Hin1 Hin2 Hd1 Hd2 Hdot.
    assert (d ∈ chars grid) as Hdin by by eapply list_elem_of_lookup_2.
    destruct (search_same_clue 810 v [] unit b1 b2) as [l' Hfalse]; try done.
    + unfold UNITLIST. rewrite !elem_of_app. auto.
    + intros ->. apply Hij. by eapply NoDup_lookup; [apply NoDup_BOXES|..].
    + rewrite (Hget i b1 d Hb1 Hd1), decide_False by done.
      by eapply elem_of_chars_len.
    + by rewrite (Hget i b1 d Hb1 Hd1), (Hget j b2 d Hb2 Hd2).
    + congruence.
Qed.

Lemma solve_unsolvable_witness :
  ∃ r,
    (∀ fuel assignments, 811 ≤ fuel →
       ∃ assignments',
         solve fuel two_fives_grid assignments
         = Returns (Some (r, assignments'))) ∧
    r = PyFalse.
Proof.
  destruct (solve_unsolvable two_fives_grid) as (r & Hrun & _ & _ & Hrow).
  - reflexivity.
  - apply Forall_forall. apply (bool_decide_unpack _). by vm_compute.
  - exists r. split; [done|].
    apply (Hrow (cross "A" COLS) 0 1 "A1" "A2" "5").
    + apply (bool_decide_unpack _). by vm_compute.
    + lia.
    + reflexivity.
    + reflexivity.
    + apply (bool_decide_unpack _). by vm_compute.
    + apply (bool_decide_unpack _). by vm_compute.
    + reflexivity.
    + reflexivity.
    + discriminate.
Defined.

(** ** Grid states reachable from a parsed grid *)

Lemma sublist_StronglySorted {A} (R : relation A) (l1 l2 : list A) :
  l1 `sublist_of` l2 → StronglySorted R l2 → StronglySorted R l1.
Proof.
  induction 1 as [|x l1 l2 Hsub IH|x l1 l2 Hsub IH];
    rewrite ?StronglySorted_cons; [done|..].
  - intros [Hall Hl2]. split; [|auto].
    rewrite Forall_forall in *. intros y Hy. apply Hall.
    by eapply elem_of_sublist.
  - intros [_ Hl2]. auto.
Qed.

Lemma chars_DIGITS_sorted : StronglySorted str_lt (chars DIGITS).
Proof. repeat (constructor; [|by repeat constructor]). constructor. Qed.

Lemma chars_DIGITS_NoDup : NoDup (chars DIGITS).
Proof. apply (bool_decide_unpack _). by vm_compute. Qed.

Lemma reachable_digits_only values : reachable values → digits_only values.
Proof.
  induction 1 as [grid v Hgv|v l _ IH|v l _ IH|v l _ IH|v box value l _ IH _ Hvalue].
  - by destruct (grid_values_digits_only _ _ Hgv).
  - eapply shrinks_digits_only; [apply eliminate_shrinks|done].
  - eapply shrinks_digits_only; [apply only_choice_shrinks|done].
  - eapply shrinks_digits_only; [apply naked_twins_shrinks|done].
  - eapply shrinks_digits_only; [by apply setitem_value_shrinks|done].
Qed.

Lemma reachable_keys values : reachable values → keys values = BOXES.
Proof.
  induction 1 as [grid v Hgv|v l _ IH|v l _ IH|v l _ IH|v box value l _ IH Hbox _].
  - by destruct (grid_values_digits_only _ _ Hgv).
  - by apply eliminate_keys.
  - by apply only_choice_keys.
  - by apply naked_twins_keys.
  - by apply assign_value_keys.
Qed.

(** The grid that [reduce_puzzle] returns for a reachable grid is reachable:
    so is every grid that [solve] hands to [search]. *)
Lemma reduce_puzzle_reachable fuel values assignments w assignments' :
  reachable values →
  reduce_puzzle fuel values assignments = Some (RDict w, assignments') →
  reachable w.
Proof.
  revert values assignments.
  induction fuel as [|fuel IH]; intros v l Hv Hred; [done|].
  rewrite reduce_puzzle_S in Hred. cbv zeta in Hred.
  assert (reachable (one_pass v l).1) as Hpass.
  { destruct (one_pass_split v l) as (l1 & l2 & ->).
    by apply reachable_naked_twins, reachable_only_choice, reachable_eliminate. }
  case_decide; [done|]. case_bool_decide; [by simplify_eq|].
  by eapply IH.
Qed.

(** C10: the three rules and the branch assignment of [search] leave in
    every box a subsequence of the domain it had, so that no domain grows or
    gains a character; and every domain of a grid state reachable from a
    parsed grid is a subsequence of '123456789', hence without duplicates and
    strictly ascending. *)
Theorem domains_shrink :
  (∀ values assignments,
     shrinks values (eliminate values assignments).1 ∧
     shrinks values (only_choice values assignments).1 ∧
     shrinks values (naked_twins values assignments).1) ∧
  (∀ values box value assignments,
     value ∈ chars (getitem values box) →
     shrinks values (assign_value values box value assignments).1) ∧
  (∀ values, reachable values → ∀ box,
     chars (getitem values box) `sublist_of` chars DIGITS ∧
     NoDup (chars (getitem values box)) ∧
     StronglySorted str_lt (chars (getitem values box))).
Proof.
  split_and!.
  - intros v l. split_and!.
    + apply eliminate_shrinks.
    + apply only_choice_shrinks.
    + apply naked_twins_shrinks.
  - intros v box value l Hvalue. by apply setitem_value_shrinks.
  - intros v Hv box. pose proof (reachable_digits_only v Hv box) as Hsub.
    split_and!; [done|..].
    + eapply sublist_NoDup; [apply chars_DIGITS_NoDup|done].
    + eapply sublist_StronglySorted; [done|apply chars_DIGITS_sorted].
Qed.

Lemma domains_shrink_witness :
  ∃ values, grid_values diag_sudoku_grid = Returns values ∧
    chars (getitem (eliminate values []).1 "A2") `sublist_of` chars DIGITS.
Proof.
  destruct (grid_values diag_sudoku_grid) as [v|] eqn:Hgv;
    [|exfalso; revert Hgv; by vm_compute].
  exists v. split; [done|].
  apply (proj2 (proj2 domains_shrink) _
           (reachable_eliminate v [] (reachable_parsed _ _ Hgv)) "A2").
Defined.

(** ** The units of a box *)

(** Box A2 is on no diagonal and has three units: the claim that every box
    has exactly four fails there. *)
Lemma not_every_box_has_4_units :
  ¬ ∀ box, box ∈ BOXES → length (UNITS !!! box) = 4.
Proof.
  intros H. specialize (H "A2").
  assert (length (UNITS !!! "A2") = 3) as H3 by (by vm_compute).
  rewrite H3 in H. discriminate H.
  apply (bool_decide_unpack _). by vm_compute.
Qed.

(** C9, amended: there are 29 units; the units of a box are its row, its
    column, its square and the diagonals through it, that is three units
    and one more per diagonal; 64 boxes have three units, the 16 boxes on
    one diagonal have four, and the centre box E5, on both diagonals, is the
    only one with five. *)
Theorem units_of_box :
  length UNITLIST = 29 ∧ length BOXES = 81 ∧
  Forall (λ box,
    UNITS !!! box = filter (λ unit, box ∈ unit) UNITLIST ∧
    length (filter (λ unit, unit ∈ RUNITS) (UNITS !!! box)) = 1 ∧
    length (filter (λ unit, unit ∈ CUNITS) (UNITS !!! box)) = 1 ∧
    length (filter (λ unit, unit ∈ SUNITS) (UNITS !!! box)) = 1 ∧
    length (filter (λ unit, unit ∈ DUNITS) (UNITS !!! box)) ≤ 2 ∧
    length (UNITS !!! box) =
      3 + length (filter (λ unit, unit ∈ DUNITS) (UNITS !!! box)) ∧
    (length (UNITS !!! box) = 5 ↔ box = "E5")) BOXES ∧
  length (filter (λ box, length (UNITS !!! box) = 3) BOXES) = 64 ∧
  length (filter (λ box, length (UNITS !!! box) = 4) BOXES) = 16 ∧
  length (filter (λ box, length (UNITS !!! box) = 5) BOXES) = 1.
Proof. apply (bool_decide_unpack _). by vm_compute. Qed.

(** ** The contradiction signal of reduce_puzzle *)

Lemma grid_of_one_pass v l : (one_pass v l).1 = grid_of (one_pass v).
Proof. apply log_free_one_pass. Qed.










(** ** reduce_puzzle on its own output *)

(** [reduce_puzzle] returns a grid [v1] for [stall_grid], and called on [v1]
    it returns another grid: the domain of B1 goes from '456789' to '8'. *)
Lemma reduce_puzzle_not_idempotent :
  ∃ values v1 l1 v2 l2,
    grid_values stall_grid = Returns values ∧
    reduce_puzzle 82 values [] = Some (RDict v1, l1) ∧
    reduce_puzzle 82 v1 [] = Some (RDict v2, l2) ∧
    getitem v1 "B1" = "456789" ∧ getitem v2 "B1" = "8".
Proof.
  assert (match grid_values stall_grid with
          | Returns values =>
              match reduce_puzzle 82 values [] with
              | Some (RDict v1, _) =>
                  match reduce_puzzle 82 v1 [] with
                  | Some (RDict v2, _) =>
                      bool_decide (getitem v1 "B1" = "456789" ∧
                                   getitem v2 "B1" = "8")
                  | _ => false
                  end
              | _ => false
              end
          | _ => false
          end = true) as H by (vm_compute; reflexivity).
  destruct (grid_values stall_grid) as [values|] eqn:E0; [|discriminate H].
  destruct (reduce_puzzle 82 values []) as [[[|v1] l1]|] eqn:E1; try discriminate H.
  destruct (reduce_puzzle 82 v1 []) as [[[|v2] l2]|] eqn:E2; try discriminate H.
  apply bool_decide_eq_true in H as [H1 H2].
  exists values, v1, l1, v2, l2. repeat split; assumption || reflexivity.
Qed.

(** C3, amended: a grid that [reduce_puzzle] returned, and that one more
    turn of eliminate, only_choice and naked_twins leaves as it is, is
    returned unchanged by [reduce_puzzle], whatever the fuel and the log. *)
Theorem reduce_puzzle_fixpoint fuel values assignments w assignments' :
  keys values = BOXES →
  reduce_puzzle fuel values assignments = Some (RDict w, assignments') →
  grid_of (one_pass w) = w →
  ∀ fuel' l, ∃ l', reduce_puzzle (S fuel') w l = Some (RDict w, l').
Proof.
  intros Hkeys Hred Hfix fuel' l.
  destruct (reduce_puzzle_RDict _ _ _ _ _ Hkeys Hred) as (s & l0 & _ & _ & Hw & Hempty & _).
  rewrite reduce_puzzle_S. cbv zeta. rewrite grid_of_one_pass, Hfix.
  rewrite decide_False by (by intros []).
  rewrite bool_decide_eq_true_2 by done. eauto.
Qed.

Lemma reduce_puzzle_fixpoint_witness :
  ∃ values w l', grid_values diag_sudoku_grid = Returns values ∧
    reduce_puzzle 1 w [] = Some (RDict w, l').
Proof.
  assert (match grid_values diag_sudoku_grid with
          | Returns values =>
              match reduce_puzzle 82 values [] with
              | Some (RDict w, _) => bool_decide (grid_of (one_pass w) = w)
              | _ => false
              end
          | _ => false
          end = true) as H by (vm_compute; reflexivity).
  destruct (grid_values diag_sudoku_grid) as [values|] eqn:Hgv; [|discriminate H].
  destruct (reduce_puzzle 82 values []) as [[[|w] l]|] eqn:Hred; try discriminate H.
  apply bool_decide_eq_true in H.
  destruct (reduce_puzzle_fixpoint 82 values [] w l
              (proj1 (grid_values_digits_only _ _ Hgv)) Hred H 0 []) as [l' Hl'].
  exists values, w, l'. split; [reflexivity|exact Hl'].
Defined.

(** ** The branching of search *)

(** The boxes are listed in ascending order of their names, so the least
    name is the first box in row-major order. *)
Lemma BOXES_sorted : StronglySorted str_lt BOXES.
Proof. apply (bool_decide_unpack _). by vm_compute. Qed.

Lemma BOXES_lookup_lt i j box box' :
  BOXES !! i = Some box → BOXES !! j = Some box' → j < i → str_lt box' box.
Proof.
  intros Hi Hj Hlt. pose proof BOXES_sorted as Hsorted.
  rewrite <-(take_drop_middle BOXES i box Hi) in Hsorted.
  eapply StronglySorted_app_1_elem_of; [done| |by left].
  apply list_elem_of_lookup. exists j. by rewrite lookup_take_lt.
Qed.

(** The loop returns the result of the first digit whose call is truthy,
    and [None] when there is none. *)
Lemma try_values_first fuel v box vs assignments r assignments' :
  try_values (search fuel) v box vs assignments = Some (r, assignments') →
  (∃ ds1 d ds2,
     vs = ds1 ++ d :: ds2 ∧
     Forall (λ d', ∃ r', branch fuel v box d' = Some r' ∧ truthy r' = false) ds1 ∧
     branch fuel v box d = Some r ∧ truthy r = true) ∨
  (r = PyNone ∧
   Forall (λ d', ∃ r', branch fuel v box d' = Some r' ∧ truthy r' = false) vs).
Proof.
  revert assignments; induction vs as [|d vs IH]; intros l.
  - intros ?; simplify_eq/=. right. by split.
  - rewrite try_values_S.
    pose proof (search_log_free fuel (setitem v box d)
                  (assign_value v box d l).2 []) as Hfree.
    destruct (search fuel (setitem v box d) (assign_value v box d l).2)
      as [[r1 l1]|]; [|done].
    assert (branch fuel v box d = Some r1) as Hd by done.
    destruct (truthy r1) eqn:Hr1.
    + intros ?; simplify_eq. left. exists [], d, vs. by split_and!.
    + intros [(ds1 & d' & ds2 & -> & ? & ? & ?)|[-> ?]]%IH.
      * left. exists (d :: ds1), d', ds2. split_and!; try done.
        constructor; eauto.
      * right. split; [done|]. constructor; eauto.
Qed.

(** ** only_choice *)

Lemma forced_elem_of values values' box s :
  forced values values' → getitem values box ∈ chars s →
  getitem values' box ∈ chars s.
Proof.
  intros Hf Hs. destruct (Hf box) as [->|Hin]; [done|].
  rewrite chars_len_1 in Hin by by eapply elem_of_chars_len.
  by apply list_elem_of_singleton in Hin as ->.
Qed.

#[global] Instance forced_preorder : PreOrder forced.
Proof.
  split.
  - intros v box. by left.
  - intros v1 v2 v3 H12 H23 box.
    destruct (H23 box) as [->|Hin]; [apply H12|].
    destruct (H12 box) as [Heq|Hin']; [right; by rewrite <-Heq|].
    right. by eapply forced_elem_of.
Qed.


Lemma only_choice_digit_forced unit digit values assignments :
  len digit = 1 → forced values (only_choice_digit unit digit values assignments).1.
Proof.
  intros Hlen. unfold only_choice_digit.
  destruct (filter _ unit) as [|box [|]] eqn:E; try done.
  assert (box ∈ filter (λ box, str_in digit (getitem values box) = true) unit)
    as [Hin _]%list_elem_of_filter by (rewrite E; by left).
  intros box'. rewrite assign_value_fst, getitem_setitem.
  case_decide; subst; [right|by left]. by apply str_in_char.
Qed.

Lemma only_choice_unit_forced unit values assignments :
  forced values
    (for_each (chars DIGITS) (only_choice_digit unit) values assignments).1.
Proof.
  apply (for_each_ind (forced values)); [|done].
  intros digit v l Hdigit Hv. etrans; [done|].
  apply only_choice_digit_forced. by eapply elem_of_chars_len.
Qed.








(** ** naked_twins *)

Lemma counter_get_add {A} `{EqDecision A} (c : list (A * nat)) x y :
  counter_get (counter_add c x) y =
  counter_get c y + (if decide (x = y) then 1 else 0).
Proof.
  induction c as [|[z n] c IH]; simpl.
  - by case_decide.
  - destruct (decide (z = x)) as [->|Hzx]; simpl.
    + case_decide; lia.
    + destruct (decide (z = y)) as [->|]; [|done].
      rewrite decide_False by done. lia.
Qed.

Lemma counter_add_keys {A} `{EqDecision A} (c : list (A * nat)) x :
  NoDup c.*1 → NoDup (counter_add c x).*1 ∧
               ∀ y, y ∈ (counter_add c x).*1 → y = x ∨ y ∈ c.*1.
Proof.
  induction c as [|[z n] c IH]; simpl.
  - intros _. split; [apply NoDup_singleton|].
    intros y ->%list_elem_of_singleton. by left.
  - intros [Hz Hnd]%NoDup_cons. destruct (IH Hnd) as [IH1 IH2].
    destruct (decide (z = x)) as [->|Hzx]; simpl.
    + split; [by apply NoDup_cons|]. intros y Hy. by right.
    + split.
      * apply NoDup_cons. split; [|done].
        intros [?|?]%IH2; [done|done].
      * intros y [->|[->|?]%IH2]%elem_of_cons; [right; by left|by left|].
        right. by right.
Qed.

Lemma Counter_spec {A} `{EqDecision A} (xs : list A) :
  NoDup (Counter xs).*1 ∧
  ∀ y, counter_get (Counter xs) y = length (filter (λ x, x = y) xs).
Proof.
  unfold Counter.
  assert (∀ c, NoDup c.*1 →
            NoDup (foldl counter_add c xs).*1 ∧
            ∀ y, counter_get (foldl counter_add c xs) y =
                 counter_get c y + length (filter (λ x, x = y) xs)) as Hgen.
  { induction xs as [|x xs IH]; intros c Hc; simpl.
    - split; [done|]. intros; lia.
    - destruct (counter_add_keys c x Hc) as [Hnd _].
      destruct (IH _ Hnd) as [IH1 IH2]. split; [done|].
      intros y. rewrite IH2, counter_get_add, filter_cons.
      repeat case_decide; simpl; try done; lia. }
  destruct (Hgen [] (NoDup_nil_2)) as [? Hget]. split; [done|].
  intros y. by rewrite Hget.
Qed.

Lemma counter_get_elem_of {A} `{EqDecision A} (c : list (A * nat)) y n :
  NoDup c.*1 → (y, n) ∈ c → counter_get c y = n.
Proof.
  induction c as [|[z m] c IH]; simpl; [by intros _ ?%elem_of_nil|].
  intros [Hz Hnd]%NoDup_cons [?|Hin]%elem_of_cons; simplify_eq.
  - by rewrite decide_True.
  - case_decide; subst; [|auto]. destruct Hz.
    apply list_elem_of_fmap. by exists (y, n).
Qed.

Lemma elem_of_counter_get {A} `{EqDecision A} (c : list (A * nat)) y :
  counter_get c y ≠ 0 → (y, counter_get c y) ∈ c.
Proof.
  induction c as [|[z m] c IH]; simpl; [done|].
  case_decide; subst; [by left|]. right; auto.
Qed.

Lemma length_filter_fmap {A B} (f : A → B) (P : B → Prop)
    `{!∀ y, Decision (P y)} (l : list A) :
  length (filter P (f <$> l)) = length (filter (λ x, P (f x)) l).
Proof.
  induction l as [|x l IH]; [done|]. rewrite fmap_cons, !filter_cons.
  case_decide; simpl; by rewrite IH.
Qed.

(** A twin is a set that exactly two boxes of the unit have as their
    two-character domain. *)
Lemma elem_of_twins_of unit values T :
  T ∈ twins_of unit values ↔
  length (filter (λ box, len (getitem values box) = 2 ∧
                         frozenset (getitem values box) = T) unit) = 2.
Proof.
  unfold twins_of. cbv zeta.
  set (ps := (snd <$> ((λ box, (box, frozenset (getitem values box)))
              <$> filter (λ box, len (getitem values box) = 2) unit))).
  destruct (Counter_spec ps) as [Hnd Hget].
  assert (length (filter (λ x, x = T) ps) =
          length (filter (λ box, len (getitem values box) = 2 ∧
                                 frozenset (getitem values box) = T) unit)) as <-.
  { unfold ps. rewrite <-list_fmap_compose.
    rewrite length_filter_fmap, list_filter_filter.
    f_equal. apply list_filter_iff. intros box. simpl. tauto. }
  rewrite <-Hget. rewrite list_elem_of_fmap. split.
  - intros ([T' n] & -> & [Hn Hin]%list_elem_of_filter). simpl in *. subst n.
    by apply counter_get_elem_of.
  - intros H2. exists (T, 2). split; [done|].
    apply list_elem_of_filter. split; [done|].
    rewrite <-H2. apply elem_of_counter_get. by rewrite H2.
Qed.

(** A loop over different boxes whose turn for [x] touches the domain of [x]
    only, as a function [h] of that domain, applies [h] to the boxes of the
    list. *)
Lemma for_each_pointwise (h : string → string) (xs : list string) body :
  NoDup xs →
  (∀ x values assignments b,
     getitem (body x values assignments).1 b =
     if decide (b = x) then h (getitem values x) else getitem values b) →
  ∀ values assignments b,
    getitem (for_each xs body values assignments).1 b =
    if decide (b ∈ xs) then h (getitem values b) else getitem values b.
Proof.
  intros Hnd Hbody. induction Hnd as [|x xs Hx Hnd IH]; intros v l b.
  - cbn [for_each ret fst]. by rewrite decide_False by apply not_elem_of_nil.
  - cbn [for_each]. unfold bind.
    pose proof (Hbody x v l) as Hx1. destruct (body x v l) as [v1 l1].
    cbn [fst] in Hx1. rewrite IH, !Hx1.
    destruct (decide (b = x)) as [->|Hne].
    + rewrite decide_False by done. by rewrite decide_True by by left.
    + destruct (decide (b ∈ xs)).
      * by rewrite decide_True by by right.
      * rewrite decide_False; [done|]. by intros [?|?]%elem_of_cons.
Qed.

Lemma naked_twins_box_getitem twins box values assignments b :
  getitem (naked_twins_box twins box values assignments).1 b =
  if decide (b = box) then without_twins twins (getitem values box)
  else getitem values b.
Proof.
  unfold naked_twins_box, without_twins.
  destruct (decide (len (getitem values box) = 1)); [by case_decide; subst|].
  destruct (decide (frozenset (getitem values box) ∈ twins)); [by case_decide; subst|].
  rewrite assign_value_fst, getitem_setitem. by repeat case_decide; subst.
Qed.

Lemma naked_twins_unit_getitem unit values assignments b :
  NoDup unit →
  getitem (naked_twins_unit unit values assignments).1 b =
  if decide (b ∈ unit) then without_twins (twins_of unit values) (getitem values b)
  else getitem values b.
Proof.
  intros Hnd. unfold naked_twins_unit. cbv zeta.
  destruct (decide (length (twins_of unit values) = 0)) as [Hnil|_].
  - apply length_zero_iff_nil in Hnil. rewrite Hnil. cbn [ret fst].
    case_decide; [|done]. unfold without_twins.
    repeat case_decide; try done;
      by rewrite union_list_nil, elements_empty.
  - by apply for_each_pointwise; [|apply naked_twins_box_getitem].
Qed.

Lemma twins_of_digits unit values T d :
  T ∈ twins_of unit values → d ∈ T → len d = 1.
Proof.
  intros HT Hd. apply elem_of_twins_of in HT.
  destruct (filter _ unit) as [|box ?] eqn:E; [done|].
  assert (box ∈ filter (λ box, len (getitem values box) = 2 ∧
                               frozenset (getitem values box) = T) unit) as Hbox
    by (rewrite E; by left).
  apply list_elem_of_filter in Hbox as [[_ <-] _].
  apply elem_of_list_to_set in Hd. by eapply elem_of_chars_len.
Qed.




(** * Further properties of the code *)

(** ** The tables UNITS and PEERS *)

Lemma fmap_fst_pair {A B} (f : A → B) (l : list A) :
  ((λ x, (x, f x)) <$> l).*1 = l.
Proof. induction l; simpl; by f_equal. Qed.

Lemma UNITS_lookup box :
  UNITS !!! box =
  if decide (box ∈ BOXES) then filter (λ unit, box ∈ unit) UNITLIST else [].
Proof.
  rewrite lookup_total_alt. unfold UNITS. case_decide as Hbox.
  - erewrite (elem_of_list_to_map_1 _ box); [done| |].
    + rewrite fmap_fst_pair. apply NoDup_BOXES.
    + apply list_elem_of_fmap. by exists box.
  - rewrite not_elem_of_list_to_map_1; [done|]. by rewrite fmap_fst_pair.
Qed.

Lemma PEERS_lookup box :
  PEERS !!! box =
  if decide (box ∈ BOXES)
  then list_to_set (concat (UNITS !!! box)) ∖ list_to_set [box] else ∅.
Proof.
  rewrite lookup_total_alt. unfold PEERS. case_decide as Hbox.
  - erewrite (elem_of_list_to_map_1 _ box); [done| |].
    + rewrite fmap_fst_pair. apply NoDup_BOXES.
    + apply list_elem_of_fmap. by exists box.
  - rewrite not_elem_of_list_to_map_1; [done|]. by rewrite fmap_fst_pair.
Qed.

Lemma elem_of_concat {A} (x : A) (ls : list (list A)) :
  x ∈ concat ls ↔ ∃ l, l ∈ ls ∧ x ∈ l.
Proof.
  rewrite list_elem_of_In, in_concat.
  by setoid_rewrite list_elem_of_In.
Qed.

Lemma elem_of_PEERS cell peer :
  peer ∈ PEERS !!! cell ↔
  peer ≠ cell ∧ ∃ unit, unit ∈ UNITLIST ∧ cell ∈ unit ∧ peer ∈ unit.
Proof.
  rewrite PEERS_lookup, UNITS_lookup. case_decide as Hcell.
  - rewrite elem_of_difference, elem_of_list_to_set, elem_of_list_to_set.
    rewrite list_elem_of_singleton, elem_of_concat.
    setoid_rewrite list_elem_of_filter. naive_solver.
  - split; [by intros ?%elem_of_empty|].
    intros (_ & unit & Hunit & Hin & _). destruct Hcell. by eapply unit_boxes.
Qed.

(** X1: the peers of a box are the other boxes of its units, for every box
    name (a name off the board has none); so being a peer is symmetric. *)
Theorem peers_symmetric :
  (∀ cell peer,
     peer ∈ PEERS !!! cell ↔
     peer ≠ cell ∧ ∃ unit, unit ∈ UNITLIST ∧ cell ∈ unit ∧ peer ∈ unit) ∧
  (∀ cell peer, peer ∈ PEERS !!! cell ↔ cell ∈ PEERS !!! peer).
Proof.
  split; [apply elem_of_PEERS|].
  intros cell peer. rewrite !elem_of_PEERS. naive_solver.
Qed.

(** ** cross and partition *)

Lemma chars_app s t : chars (s +:+ t) = chars s ++ chars t.
Proof. induction s as [|c s IH]; simpl; [done|]. by rewrite <-IH. Qed.

Lemma chars_substring a n s :
  chars (String.substring a n s) = take n (drop a (chars s)).
Proof.
  revert a n; induction s as [|c s IH]; intros [|a] [|n]; simpl;
    rewrite ?IH, ?drop_0, ?take_0; done.
Qed.

Lemma chars_join l : chars (String.concat "" l) = concat (chars <$> l).
Proof.
  induction l as [|s [|t l] IH]; [done|by simpl; rewrite app_nil_r|].
  change (String.concat "" (s :: t :: l))
    with (s +:+ "" +:+ String.concat "" (t :: l)).
  rewrite chars_app.
  change ("" +:+ String.concat "" (t :: l)) with (String.concat "" (t :: l)).
  by rewrite IH.
Qed.

Lemma bind_singleton {A B} (g : A → B) (l : list A) :
  (l ≫= λ t, [g t]) = g <$> l.
Proof. induction l as [|x l IH]; [done|]. rewrite bind_cons, IH. done. Qed.

Lemma cross_lists_lookup {A B C} (f : A → B → C) (l1 : list A) (l2 : list B)
    i j s t :
  l1 !! i = Some s → l2 !! j = Some t →
  (l1 ≫= λ s, l2 ≫= λ t, [f s t]) !! (i * length l2 + j) = Some (f s t).
Proof.
  revert i; induction l1 as [|x l1 IH]; intros i Hi Hj; [done|].
  rewrite bind_cons, bind_singleton.
  pose proof (lookup_lt_Some _ _ _ Hj) as Hlt. destruct i as [|i]; simpl in *.
  - simplify_eq. rewrite lookup_app_l by by rewrite length_fmap.
    by rewrite list_lookup_fmap, Hj.
  - rewrite lookup_app_r by (rewrite length_fmap; lia).
    rewrite length_fmap.
    replace (length l2 + i * length l2 + j - length l2) with (i * length l2 + j)
      by lia.
    by apply IH.
Qed.

Lemma elem_of_cross a b x :
  x ∈ cross a b ↔ ∃ s t, s ∈ chars a ∧ t ∈ chars b ∧ x = s +:+ t.
Proof.
  unfold cross. rewrite list_elem_of_bind. setoid_rewrite list_elem_of_bind.
  setoid_rewrite list_elem_of_singleton. naive_solver.
Qed.

(** X2: [cross(a, b)] lists the concatenations of a character of [a] and a
    character of [b], those of the first character of [a] first: it has
    [len(a) * len(b)] elements, the one at index [i * len(b) + j] is
    [a[i] + b[j]], and it has no other elements. *)
Theorem cross_spec (a b : string) :
  length (cross a b) = len a * len b ∧
  (∀ i j s t, chars a !! i = Some s → chars b !! j = Some t →
     cross a b !! (i * len b + j) = Some (s +:+ t)) ∧
  (∀ x, x ∈ cross a b ↔ ∃ s t, s ∈ chars a ∧ t ∈ chars b ∧ x = s +:+ t).
Proof.
  unfold cross. split_and!.
  - rewrite <-!length_chars. induction (chars a) as [|x l IH]; [done|].
    rewrite bind_cons, length_app, IH, bind_singleton, length_fmap. simpl. lia.
  - intros i j s t Hi Hj. rewrite <-length_chars.
    by apply (cross_lists_lookup String.append).
  - intros x. apply elem_of_cross.
Qed.

Lemma concat_take_drop {A} (l : list A) n m :
  concat ((λ k, take n (drop (k * n) l)) <$> seq 0 m) = take (m * n) l.
Proof.
  induction m as [|m IH]; [by rewrite take_0|].
  rewrite seq_S, fmap_app, concat_app, IH. simpl. rewrite app_nil_r.
  rewrite take_take_drop. f_equal. lia.
Qed.

(** X3: for a positive [n], [partition(n, coll)] cuts [coll] into
    [ceil(len(coll) / n)] pieces of one to [n] characters that join back to
    [coll]. *)
Theorem partition_spec (n : nat) (coll : string) :
  0 < n →
  String.concat "" (partition n coll) = coll ∧
  length (partition n coll) = (len coll + n - 1) / n ∧
  ∀ part, part ∈ partition n coll → 0 < len part ≤ n.
Proof.
  intros Hn. unfold partition.
  pose proof (Nat.div_mod_eq (len coll + n - 1) n) as Hdiv.
  pose proof (Nat.mod_upper_bound (len coll + n - 1) n ltac:(lia)) as Hmod.
  set (m := (len coll + n - 1) / n) in *. split_and!.
  - apply chars_inj. rewrite chars_join, <-list_fmap_compose.
    rewrite (list_fmap_ext _ (λ k, take n (drop (k * n) (chars coll))))
      by (intros; apply chars_substring).
    rewrite concat_take_drop, take_ge; [done|]. rewrite length_chars. nia.
  - by rewrite length_fmap, length_seq.
  - intros part (k & -> & Hk)%list_elem_of_fmap.
    apply elem_of_seq in Hk as [_ Hk].
    rewrite <-length_chars, chars_substring, length_take, length_drop, length_chars.
    nia.
Qed.

Lemma partition_spec_witness :
  String.concat "" (partition 3 ROWS) = ROWS ∧ length (partition 3 ROWS) = 3.
Proof.
  destruct (partition_spec 3 ROWS) as (Hjoin & Hlen & _); [lia|].
  split; [exact Hjoin|exact Hlen].
Defined.

Lemma cross_spec_witness : cross "A" COLS !! 4 = Some "A5".
Proof. apply (proj1 (proj2 (cross_spec "A" COLS)) 0 4 "A" "5"); reflexivity. Defined.

(** ** What eliminate removes *)

Lemma PEERS_sym cell peer : peer ∈ PEERS !!! cell → cell ∈ PEERS !!! peer.
Proof. rewrite !elem_of_PEERS. naive_solver. Qed.

Lemma filter_all {A} (P : A → Prop) `{!∀ x, Decision (P x)} (l : list A) :
  (∀ x, x ∈ l → P x) → filter P l = l.
Proof.
  induction l as [|x l IH]; intros HP; [done|].
  rewrite filter_cons_True by (apply HP; by left).
  f_equal. apply IH. intros. apply HP. by right.
Qed.

Lemma eliminate_cell_getitem cell digit values assignments b :
  getitem (for_each (elements (PEERS !!! cell)) (λ peer values,
             assign_value values peer (replace (getitem values peer) digit))
             values assignments).1 b =
  if decide (b ∈ PEERS !!! cell) then replace (getitem values b) digit
  else getitem values b.
Proof.
  rewrite (for_each_pointwise (λ s, replace s digit)).
  - destruct (decide (b ∈ elements (PEERS !!! cell))) as [Hb|Hb];
      rewrite elem_of_elements in Hb; by case_decide.
  - apply NoDup_elements.
  - intros peer v l b'. rewrite assign_value_fst, getitem_setitem.
    by repeat case_decide; subst.
Qed.

Lemma eliminate_loop_chars (sol : list (string * string)) values assignments peer :
  Forall (λ cd, len cd.2 = 1) sol →
  chars (getitem (for_each sol (λ '(cell, digit) values,
           for_each (elements (PEERS !!! cell)) (λ peer values,
             assign_value values peer (replace (getitem values peer) digit))
             values) values assignments).1 peer) =
  filter (λ d, d ∉ snd <$> filter (λ cd : string * string, peer ∈ PEERS !!! cd.1) sol)
    (chars (getitem values peer)).
Proof.
  intros Hsol. revert values assignments.
  induction Hsol as [|[cell digit] sol Hlen Hsol IH]; intros v l.
  - cbn [for_each ret fst]. rewrite filter_nil. cbn [fmap list_fmap].
    symmetry. apply filter_all. intros d _. apply not_elem_of_nil.
  - cbn [for_each]. unfold bind.
    pose proof (eliminate_cell_getitem cell digit v l peer) as Hcell.
    destruct (for_each (elements (PEERS !!! cell)) _ v l) as [v1 l1].
    cbn [fst] in Hcell. rewrite IH, Hcell, filter_cons. cbn [fst snd] in *.
    destruct (decide (peer ∈ PEERS !!! cell)).
    + rewrite chars_replace_char by done. rewrite list_filter_filter.
      apply list_filter_iff. intros d. rewrite fmap_cons, not_elem_of_cons.
      cbn [snd]. tauto.
    + done.
Qed.

(** X4: [eliminate] removes from the domain of a box exactly the digits of
    the boxes that were solved when it started and have the box among their
    peers, and keeps the order of the others; in a grid state these are the
    digits of its solved peers. *)
Theorem eliminate_spec values assignments peer :
  chars (getitem (eliminate values assignments).1 peer) =
    filter (λ d, d ∉ solved_peer_digits values peer)
      (chars (getitem values peer)) ∧
  (keys values = BOXES →
   ∀ d, d ∈ solved_peer_digits values peer ↔
        ∃ cell, cell ∈ PEERS !!! peer ∧ getitem values cell = d ∧ len d = 1).
Proof.
  split.
  - unfold eliminate. cbv zeta. rewrite eliminate_loop_chars.
    + unfold solved_peer_digits. rewrite list_filter_filter.
      apply list_filter_iff. intros d.
      assert (filter (λ cd : string * string,
                        peer ∈ PEERS !!! cd.1 ∧ len cd.2 = 1) values =
              filter (λ cd : string * string,
                        len cd.2 = 1 ∧ peer ∈ PEERS !!! cd.1) values) as ->
        by (apply list_filter_iff; intros; tauto).
      done.
    + apply Forall_forall. by intros cd [? _]%list_elem_of_filter.
  - intros Hkeys d. unfold solved_peer_digits.
    rewrite list_elem_of_fmap. split.
    + intros ([cell digit] & -> & [[Hlen Hpeer] Hin]%list_elem_of_filter).
      cbn [fst snd] in *. exists cell. split_and!; [|  |done].
      * by apply PEERS_sym.
      * apply getitem_elem_of; [|done]. rewrite Hkeys. apply NoDup_BOXES.
    + intros (cell & Hcell & <- & Hlen).
      exists (cell, getitem values cell). split; [done|].
      apply list_elem_of_filter. cbn [fst snd]. split_and!; [done| |].
      * by apply PEERS_sym.
      * apply elem_of_getitem. rewrite Hkeys. by eapply PEERS_boxes.
Qed.

Lemma eliminate_spec_witness :
  "2" ∈ solved_peer_digits (parsed diag_sudoku_grid) "A2".
Proof.
  apply (proj2 (eliminate_spec (parsed diag_sudoku_grid) [] "A2")).
  - reflexivity.
  - exists "A1". split_and!; [|reflexivity|reflexivity].
    apply (bool_decide_unpack _). by vm_compute.
Defined.

(** ** What only_choice and naked_twins leave alone *)

Lemma only_choice_forced values assignments :
  forced values (only_choice values assignments).1.
Proof.
  apply (for_each_ind (forced values)); [|done].
  intros unit v l _ Hv. etrans; [done|apply only_choice_unit_forced].
Qed.

(** X5: [only_choice] leaves a domain as it is or, when it has several
    digits, replaces it by one of them; so solved and empty boxes stay as
    they are, and a grid state has as many empty boxes after it as before. *)
Theorem only_choice_collapses values assignments :
  (∀ box,
     getitem (only_choice values assignments).1 box = getitem values box ∨
     (1 < len (getitem values box) ∧
      getitem (only_choice values assignments).1 box
      ∈ chars (getitem values box))) ∧
  (keys values = BOXES →
   count_len 0 (only_choice values assignments).1 = count_len 0 values).
Proof.
  pose proof (only_choice_forced values assignments) as Hf.
  assert (∀ box,
     getitem (only_choice values assignments).1 box = getitem values box ∨
     (1 < len (getitem values box) ∧
      getitem (only_choice values assignments).1 box
      ∈ chars (getitem values box))) as Hcases.
  { intros box. destruct (Hf box) as [?|Hin]; [by left|].
    destruct (decide (1 < len (getitem values box))); [by right|left].
    destruct (getitem values box) as [|c [|]] eqn:E; simpl in *; [|  |lia].
    - by apply elem_of_nil in Hin.
    - by apply list_elem_of_singleton in Hin. }
  split; [done|]. intros Hkeys. unfold count_len.
  rewrite only_choice_keys, Hkeys by done. f_equal.
  apply list_filter_iff. intros box.
  destruct (Hcases box) as [->|[Hlt Hin]]; [done|].
  apply elem_of_chars_len in Hin. lia.
Qed.

Lemma only_choice_collapses_witness :
  count_len 0 (only_choice (parsed diag_sudoku_grid) []).1
  = count_len 0 (parsed diag_sudoku_grid).
Proof.
  apply (proj2 (only_choice_collapses (parsed diag_sudoku_grid) [])).
  reflexivity.
Defined.

(** X6: [naked_twins] never changes a box whose domain is empty or a single
    digit. *)
Theorem naked_twins_keeps_solved values assignments box :
  len (getitem values box) ≤ 1 →
  getitem (naked_twins values assignments).1 box = getitem values box.
Proof.
  intros Hlen. unfold naked_twins.
  apply (for_each_ind (λ v, getitem v box = getitem values box)); [|done].
  intros unit v l Hunit Hv.
  rewrite naked_twins_unit_getitem by by apply unit_NoDup.
  case_decide; [|done]. rewrite Hv. unfold without_twins.
  repeat case_decide; try done.
  apply chars_inj.
  pose proof (remove_digits_sublist (elements (⋃ twins_of unit v))
                (getitem values box)) as Hsub.
  destruct (getitem values box) as [|c [|]] eqn:E; simpl in *; [|done|lia].
  by apply sublist_nil_r in Hsub.
Qed.

Lemma naked_twins_keeps_solved_witness :
  getitem (naked_twins (parsed diag_sudoku_grid) []).1 "A1" = "2".
Proof.
  rewrite (naked_twins_keeps_solved (parsed diag_sudoku_grid) [] "A1").
  - reflexivity.
  - vm_compute. lia.
Defined.

(** ** What reduce_puzzle returns *)

(** X7: a grid that [reduce_puzzle] returns for a grid state has the same
    boxes and no empty domain; every domain is a subsequence of the one it
    had; and every box that was solved has kept its digit, so that there are
    at least as many solved boxes. *)
Theorem reduce_puzzle_output fuel values assignments w assignments' :
  keys values = BOXES →
  reduce_puzzle fuel values assignments = Some (RDict w, assignments') →
  keys w = BOXES ∧
  (∀ box, box ∈ BOXES → getitem w box ≠ "") ∧
  shrinks values w ∧
  (∀ box, box ∈ BOXES → len (getitem values box) = 1 →
     getitem w box = getitem values box) ∧
  count_len 1 values ≤ count_len 1 w.
Proof.
  intros Hkeys Hred.
  pose proof (reduce_puzzle_keys _ _ _ _ _ Hkeys Hred) as Hkeysw.
  pose proof (reduce_puzzle_shrinks _ _ _ _ _ Hred) as Hsh.
  destruct (reduce_puzzle_RDict _ _ _ _ _ Hkeys Hred)
    as (s & l0 & _ & _ & _ & Hempty & _).
  assert (∀ box, box ∈ BOXES → getitem w box ≠ "") as Hne.
  { rewrite <-Hkeysw. by apply count_len_0. }
  split_and!; [done|done|done| |].
  - intros box Hbox Hlen. apply shrinks_solved; auto.
  - apply shrinks_count_1; [done|congruence|done].
Qed.

Lemma reduce_puzzle_output_witness :
  ∃ w, fst <$> reduce_puzzle 82 (parsed diag_sudoku_grid) [] = Some (RDict w) ∧
       getitem w "A1" = "2".
Proof.
  destruct (reduce_puzzle 82 (parsed diag_sudoku_grid) []) as [[[|w] l]|] eqn:E;
    try (exfalso; revert E;
         assert (match reduce_puzzle 82 (parsed diag_sudoku_grid) [] with
                 | Some (RDict _, _) => true | _ => false end = true) as H
           by (vm_compute; reflexivity);
         intros E; rewrite E in H; discriminate H).
  exists w. split; [reflexivity|].
  destruct (reduce_puzzle_output 82 (parsed diag_sudoku_grid) [] w l)
    as (_ & _ & _ & Hkeep & _); [reflexivity|exact E|].
  rewrite (Hkeep "A1"); [reflexivity| |reflexivity].
  apply (bool_decide_unpack _). by vm_compute.
Defined.

(** ** solve on a solved grid *)

Lemma filter_iff_on {A} (P Q : A → Prop)
    `{!∀ x, Decision (P x)} `{!∀ x, Decision (Q x)} (l : list A) :
  (∀ x, x ∈ l → P x ↔ Q x) → filter P l = filter Q l.
Proof.
  induction l as [|x l IH]; intros HPQ; [done|].
  rewrite !filter_cons, IH by (intros; apply HPQ; by right).
  pose proof (HPQ x ltac:(by left)). by repeat case_decide; try tauto.
Qed.

Section solved_grid.
Context (w : dict) (Hkeys : keys w = BOXES) (Hsolved : solved w).

Lemma solved_len box : box ∈ BOXES → len (getitem w box) = 1.
Proof. intros Hbox. eapply elem_of_chars_len. by apply Hsolved. Qed.

Lemma solved_distinct unit a b :
  unit ∈ UNITLIST → a ∈ unit → b ∈ unit → a ≠ b → getitem w a ≠ getitem w b.
Proof.
  intros Hunit Ha Hb Hne Heq. destruct Hsolved as [Hone Hunits].
  specialize (Hunits unit Hunit (getitem w a)
                (Hone a (unit_boxes _ _ Hunit Ha))).
  destruct (filter _ unit) as [|x [|]] eqn:E; try done.
  assert (a ∈ [x] ∧ b ∈ [x]) as [Ha' Hb'].
  { rewrite <-E. split; by apply list_elem_of_filter. }
  apply list_elem_of_singleton in Ha', Hb'. congruence.
Qed.

Lemma eliminate_solved assignments : (eliminate w assignments).1 = w.
Proof.
  unfold eliminate. cbv zeta.
  apply (for_each_ind (λ v, v = w)); [|done].
  intros [cell digit] v l [Hlen Hin]%list_elem_of_filter ->.
  apply (for_each_ind (λ v, v = w)); [|done].
  intros peer v l' Hpeer%elem_of_elements ->.
  assert (getitem w cell = digit) as Hdigit
    by (apply getitem_elem_of; [rewrite Hkeys; apply NoDup_BOXES|done]).
  assert (peer ∈ BOXES) as Hbox by by eapply PEERS_boxes.
  apply elem_of_PEERS in Hpeer as (Hne & unit & Hunit & Hc & Hp).
  pose proof (solved_distinct unit cell peer Hunit Hc Hp ltac:(done)) as Hdiff.
  rewrite assign_value_fst.
  assert (replace (getitem w peer) digit = getitem w peer) as ->.
  { apply chars_inj. rewrite chars_replace_char by done.
    rewrite (chars_len_1 (getitem w peer)) by by apply solved_len.
    rewrite filter_cons_True; [done|]. congruence. }
  apply setitem_getitem. by rewrite Hkeys.
Qed.

Lemma only_choice_solved assignments : (only_choice w assignments).1 = w.
Proof.
  unfold only_choice.
  apply (for_each_ind (λ v, v = w)); [|done]. intros unit v l Hunit ->.
  apply (for_each_ind (λ v, v = w)); [|done]. intros digit v l' Hdigit ->.
  unfold only_choice_digit.
  rewrite (filter_iff_on _ (λ box, getitem w box = digit)); cycle 1.
  { intros box Hbox.
    rewrite str_in_char by by eapply elem_of_chars_len.
    rewrite (chars_len_1 (getitem w box))
      by (apply solved_len; by eapply unit_boxes).
    by rewrite list_elem_of_singleton. }
  pose proof (proj2 Hsolved unit Hunit digit Hdigit) as Hone.
  destruct (filter _ unit) as [|box [|]] eqn:E; try done.
  assert (box ∈ filter (λ box, getitem w box = digit) unit) as Hbox
    by (rewrite E; by left).
  apply list_elem_of_filter in Hbox as [<- Hbox].
  rewrite assign_value_fst. apply setitem_getitem.
  rewrite Hkeys. by eapply unit_boxes.
Qed.

Lemma naked_twins_solved assignments : (naked_twins w assignments).1 = w.
Proof.
  unfold naked_twins.
  apply (for_each_ind (λ v, v = w)); [|done]. intros unit v l Hunit ->.
  unfold naked_twins_unit. cbv zeta.
  assert (twins_of unit w = []) as ->; [|done].
  apply elem_of_nil_inv. intros T HT%elem_of_twins_of.
  destruct (filter _ unit) as [|box ?] eqn:E; [done|].
  assert (box ∈ filter (λ box, len (getitem w box) = 2 ∧
                               frozenset (getitem w box) = T) unit) as Hbox
    by (rewrite E; by left).
  apply list_elem_of_filter in Hbox as [[Hlen _] Hbox].
  rewrite solved_len in Hlen; [done|by eapply unit_boxes].
Qed.

Lemma one_pass_solved assignments : (one_pass w assignments).1 = w.
Proof.
  destruct (one_pass_split w assignments) as (l1 & l2 & ->).
  by rewrite eliminate_solved, only_choice_solved, naked_twins_solved.
Qed.

Lemma search_solved fuel assignments :
  ∃ assignments', search (S fuel) w assignments = Some (PyDict w, assignments').
Proof.
  rewrite search_S, reduce_puzzle_S. cbv zeta. rewrite one_pass_solved.
  assert (count_len 0 w = 0) as Hempty.
  { apply count_len_0. rewrite Hkeys. intros box Hbox Hnil.
    pose proof (solved_len box Hbox) as Hlen. by rewrite Hnil in Hlen. }
  rewrite decide_False by (by intros []).
  rewrite bool_decide_eq_true_2 by done.
  assert (free_boxes w = []) as ->; [|by eauto].
  apply elem_of_nil_inv. intros x (box & _ & Hlt & Hbox)%elem_of_free_boxes.
  rewrite solved_len in Hlt by done. lia.
Qed.
End solved_grid.

(** X8: when every box of the grid holds a digit and every unit holds every
    digit once, the three rules change nothing and [solve] returns the
    parsed grid itself, with any fuel. *)
Theorem solve_solved_grid grid values fuel assignments :
  grid_values grid = Returns values → solved values →
  (one_pass values assignments).1 = values ∧
  ∃ assignments',
    solve (S fuel) grid assignments = Returns (Some (PyDict values, assignments')).
Proof.
  intros Hgv Hsolved.
  destruct (grid_values_digits_only _ _ Hgv) as [Hkeys _].
  split; [by apply one_pass_solved|].
  unfold solve. rewrite Hgv.
  destruct (search_solved values Hkeys Hsolved fuel assignments) as [l' ->].
  eauto.
Qed.

Lemma solve_solved_grid_witness :
  ∃ assignments',
    solve 1 diag_solution [] = Returns (Some (PyDict (parsed diag_solution), assignments')).
Proof.
  apply (solve_solved_grid diag_solution (parsed diag_solution) 0 []).
  - by vm_compute.
  - split.
    + apply Forall_forall. apply (bool_decide_unpack _). by vm_compute.
    + intros unit Hunit. apply Forall_forall. revert unit Hunit.
      apply Forall_forall. apply (bool_decide_unpack _). by vm_compute.
Defined.

(** ** Equal clues in a unit *)

(** X9: when two boxes of one unit, a diagonal, a square, a row or a column,
    hold the same clue, [solve] returns [False], with any fuel: the first
    [eliminate] empties both boxes. *)
Theorem solve_same_clue grid unit i j b1 b2 d fuel assignments :
  len grid = 81 → (∀ c, c ∈ chars grid → c ∈ chars DIGITS ∨ c = ".") →
  unit ∈ UNITLIST → b1 ∈ unit → b2 ∈ unit →
  BOXES !! i = Some b1 → BOXES !! j = Some b2 → i ≠ j →
  chars grid !! i = Some d → chars grid !! j = Some d → d ≠ "." →
  ∃ values assignments',
    grid_values grid = Returns values ∧
    getitem (eliminate values assignments).1 b1 = "" ∧
    getitem (eliminate values assignments).1 b2 = "" ∧
    solve (S fuel) grid assignments = Returns (Some (PyFalse, assignments')).
Proof.
  intros H81 Hok Hunit Hin1 Hin2 Hb1 Hb2 Hij Hd1 Hd2 Hdot.
  destruct (grid_values_accepts grid H81 Hok) as (v & Hgv & Hkeys & Hget).
  assert (d ∈ chars grid) as Hdin by by eapply list_elem_of_lookup_2.
  assert (len d = 1) as Hlen by by eapply elem_of_chars_len.
  assert (getitem v b1 = d) as Hv1 by by rewrite (Hget i b1 d), decide_False.
  assert (getitem v b2 = d) as Hv2 by by rewrite (Hget j b2 d), decide_False.
  assert (b1 ≠ b2) as Hne.
  { intros ->. apply Hij. by eapply NoDup_lookup; [apply NoDup_BOXES|..]. }
  assert (∀ a b, a ∈ unit → b ∈ unit → a ≠ b → getitem v a = d →
            getitem v b = d → getitem (eliminate v assignments).1 b = "")
    as Hempty.
  { intros a b Ha Hb Hab Hva Hvb. apply chars_inj.
    pose proof (eliminate_removes v assignments a b) as Hrm.
    pose proof (eliminate_shrinks v assignments b) as Hsub.
    rewrite Hva in Hrm. rewrite Hvb, (chars_len_1 _ Hlen) in Hsub.
    apply sublist_cons_r in Hsub as [Hnil|(l' & Heq & _)].
    - by apply sublist_nil_r in Hnil.
    - destruct Hrm; [|done|by apply (unit_peers unit)|rewrite Heq; by left].
      rewrite Hkeys. by eapply unit_boxes. }
  destruct (search_same_clue fuel v assignments unit b1 b2) as [l' Hfalse];
    try done; [by rewrite Hv1|by rewrite Hv1, Hv2|].
  exists v, l'. split_and!;
    [done|by apply (Hempty b2 b1)|by apply (Hempty b1 b2)|].
  unfold solve. by rewrite Hgv, Hfalse.
Qed.

Lemma solve_same_clue_witness :
  ∃ assignments',
    solve 1 diagonal_fives_grid [] = Returns (Some (PyFalse, assignments')).
Proof.
  destruct (solve_same_clue diagonal_fives_grid (UNITLIST !!! 1) 0 80 "A1" "I9" "5" 0 [])
    as (v & l' & _ & _ & _ & Hsolve); try reflexivity.
  - apply Forall_forall. apply (bool_decide_unpack _). by vm_compute.
  - apply (bool_decide_unpack _). by vm_compute.
  - apply (bool_decide_unpack _). by vm_compute.
  - apply (bool_decide_unpack _). by vm_compute.
  - lia.
  - discriminate.
  - by exists l'.
Defined.

(** ** The assignment log *)















(** ** The depth of search *)

Lemma length_filter_lt_mono {A} (P Q : A → Prop)
    `{!∀ x, Decision (P x)} `{!∀ x, Decision (Q x)} (l : list A) x :
  (∀ y, y ∈ l → P y → Q y) → x ∈ l → Q x → ¬ P x →
  length (filter P l) < length (filter Q l).
Proof.
  intros HPQ (l1 & l2 & ->)%list_elem_of_split HQ HP.
  rewrite !filter_app, !filter_cons, !length_app.
  rewrite decide_False, decide_True by done. simpl.
  assert (length (filter P l1) ≤ length (filter Q l1))
    by (apply length_filter_mono; intros; apply HPQ; [|done];
        rewrite elem_of_app; auto).
  assert (length (filter P l2) ≤ length (filter Q l2)).
  { apply length_filter_mono; intros; apply HPQ; [|done].
    rewrite elem_of_app, elem_of_cons; auto. }
  lia.
Qed.

Lemma free_boxes_shrinks values values' :
  shrinks values values' →
  length (free_boxes values') ≤ length (free_boxes values).
Proof.
  intros Hsh. unfold free_boxes. rewrite !length_fmap.
  apply length_filter_mono. intros box _ Hlt.
  pose proof (sublist_length _ _ (Hsh box)) as Hle.
  rewrite !length_chars in Hle. lia.
Qed.

Lemma free_boxes_setitem values box value :
  box ∈ BOXES → 1 < len (getitem values box) → len value = 1 →
  length (free_boxes (setitem values box value)) < length (free_boxes values).
Proof.
  intros Hbox Hlt Hlen. unfold free_boxes. rewrite !length_fmap.
  apply (length_filter_lt_mono _ _ _ box); [|done|done|].
  - intros box' _. rewrite getitem_setitem. case_decide; subst; lia.
  - rewrite getitem_setitem_eq. lia.
Qed.

(** X11: [search] nests no more calls than the grid has boxes with more
    than one digit: 82 units of fuel for the [while] loop and one per such
    box are enough, so 163 units are enough for every grid state. *)
Theorem search_depth fuel values assignments :
  keys values = BOXES →
  82 + length (free_boxes values) ≤ fuel →
  length (free_boxes values) ≤ 81 ∧
  ∃ r assignments', search fuel values assignments = Some (r, assignments').
Proof.
  intros Hkeys Hfuel. split.
  { unfold free_boxes. rewrite length_fmap, <-length_BOXES. apply length_filter. }
  revert values assignments Hkeys Hfuel.
  induction fuel as [|fuel IH]; intros values l Hkeys Hfuel; [lia|].
  rewrite search_S.
  destruct (reduce_puzzle_total (S fuel) values l Hkeys) as (r & l1 & Hred); [lia|].
  rewrite Hred. destruct r as [|v]; [by eauto|].
  pose proof (reduce_puzzle_shrinks _ _ _ _ _ Hred) as Hsh.
  pose proof (reduce_puzzle_keys _ _ _ _ _ Hkeys Hred) as Hkeysv.
  destruct (free_boxes v) as [|f fs] eqn:Hfree; [by eauto|].
  destruct (py_min_box v f fs Hfree) as (Hbox & Hlen & _).
  apply try_values_total. intros value l2 Hvalue. apply IH.
  - rewrite keys_setitem; [done|by rewrite Hkeysv].
  - pose proof (free_boxes_shrinks _ _ Hsh).
    pose proof (free_boxes_setitem v _ value Hbox Hlen
                  (elem_of_chars_len _ _ Hvalue)).
    rewrite Hfree in *. lia.
Qed.

Lemma search_depth_witness :
  ∃ r assignments', search 163 (parsed stall_grid) [] = Some (r, assignments').
Proof.
  apply (search_depth 163 (parsed stall_grid) []).
  - reflexivity.
  - assert (length (free_boxes (parsed stall_grid)) = 69) as ->
      by (by vm_compute).
    lia.
Defined.

(** ** display *)

#[local] Arguments display_row : simpl never.
#[local] Arguments display_line : simpl never.
#[local] Arguments display_width : simpl never.

Lemma len_app s t : len (s +:+ t) = len s + len t.
Proof. by rewrite <-!length_chars, chars_app, length_app. Qed.

Lemma chars_str_mul c n : chars (str_mul (String c "") n) = replicate n (String c "").
Proof. induction n as [|n IH]; [done|]. simpl. by rewrite <-IH. Qed.

(** A string shorter than [width] is padded to [width] with spaces on both
    sides. *)
Lemma chars_center s width :
  len s < width →
  ∃ left right,
    left + right = width - len s ∧
    chars (center s width) = replicate left " " ++ chars s ++ replicate right " ".
Proof.
  intros Hlt. unfold center. rewrite decide_False by lia. cbv zeta.
  set (marg := width - len s).
  set (left := marg / 2 + (if Nat.odd marg && Nat.odd width then 1 else 0)).
  assert (left ≤ marg) as Hle.
  { unfold left. pose proof (Nat.div_mod_eq marg 2) as Hdiv.
    pose proof (Nat.mod_upper_bound marg 2 ltac:(lia)) as Hmod.
    destruct (Nat.odd marg) eqn:Hodd; cbn [andb]; [|lia].
    apply Nat.odd_spec in Hodd as [k Hk]. destruct (Nat.odd width); lia. }
  exists left, (marg - left). split; [lia|].
  by rewrite !chars_app, !(chars_str_mul " ").
Qed.

Lemma display_width_gt values box :
  box ∈ BOXES → len (getitem values box) < display_width values.
Proof.
  intros Hbox. unfold display_width.
  pose proof (max_list_elem_of_le (len (getitem values box))
                ((λ s, len (getitem values s)) <$> BOXES)) as Hle.
  assert (len (getitem values box) ∈ (λ s, len (getitem values s)) <$> BOXES)
    by (apply list_elem_of_fmap; eauto).
  specialize (Hle ltac:(done)). lia.
Qed.

Lemma length_center values r c :
  r ∈ chars ROWS → c ∈ chars COLS →
  length (chars (center (getitem values (r +:+ c)) (display_width values)))
  = display_width values.
Proof.
  intros Hr Hc.
  destruct (chars_center (getitem values (r +:+ c)) (display_width values))
    as (left & right & Hsum & ->).
  - apply display_width_gt. apply elem_of_cross. eauto.
  - rewrite !length_app, !length_replicate, length_chars.
    pose proof (display_width_gt values (r +:+ c)
                  ltac:(apply elem_of_cross; eauto)). lia.
Qed.

Lemma chars_display_row values width r :
  chars (display_row values width r) =
  concat ((λ c, chars (center (getitem values (r +:+ c)) width)
                ++ (if str_in c "36" then ["|"] else [])) <$> chars COLS).
Proof.
  unfold display_row. rewrite chars_join, <-list_fmap_compose.
  f_equal. apply list_fmap_ext. intros i c _. unfold compose.
  rewrite chars_app. by destruct (str_in c "36").
Qed.

(** X12: [display] prints twelve lines: an empty one, the nine rows, and the
    separator after rows C and F.  With [w] one more than the longest
    domain, a separator is three runs of [3 * w] dashes with '+' between
    them, and a row is three groups of [3 * w] characters, its cells padded
    to [w], with '|' between them: the bars stand under each other and over
    the '+'. *)
Theorem display_layout values :
  display values =
    [""; display_row values (display_width values) "A";
     display_row values (display_width values) "B";
     display_row values (display_width values) "C";
     display_line (display_width values);
     display_row values (display_width values) "D";
     display_row values (display_width values) "E";
     display_row values (display_width values) "F";
     display_line (display_width values);
     display_row values (display_width values) "G";
     display_row values (display_width values) "H";
     display_row values (display_width values) "I"] ∧
  chars (display_line (display_width values)) =
    replicate (3 * display_width values) "-" ++ ["+"] ++
    replicate (3 * display_width values) "-" ++ ["+"] ++
    replicate (3 * display_width values) "-" ∧
  ∀ r, r ∈ chars ROWS →
    ∃ g1 g2 g3,
      chars (display_row values (display_width values) r)
      = g1 ++ ["|"] ++ g2 ++ ["|"] ++ g3 ∧
      length g1 = 3 * display_width values ∧
      length g2 = 3 * display_width values ∧
      length g3 = 3 * display_width values.
Proof.
  split_and!.
  - reflexivity.
  - generalize (display_width values) as w. intros w.
    change (display_line w)
      with (str_mul "-" (w * 3) +:+ "+" +:+ str_mul "-" (w * 3) +:+ "+"
            +:+ str_mul "-" (w * 3)).
    rewrite !chars_app, !(chars_str_mul "-"). by rewrite (Nat.mul_comm 3).
  - intros r Hr. rewrite chars_display_row.
    set (cell := λ c, chars (center (getitem values (r +:+ c))
                               (display_width values))).
    exists (cell "1" ++ cell "2" ++ cell "3"),
           (cell "4" ++ cell "5" ++ cell "6"),
           (cell "7" ++ cell "8" ++ cell "9").
    assert (∀ c, c ∈ chars COLS → length (cell c) = display_width values) as Hcell
      by (intros; by apply length_center).
    split_and!.
    + change (chars COLS) with ["1"; "2"; "3"; "4"; "5"; "6"; "7"; "8"; "9"].
      simpl. fold (cell "1") (cell "2") (cell "3") (cell "4") (cell "5")
        (cell "6") (cell "7") (cell "8") (cell "9").
      by rewrite !app_nil_r, <-!app_assoc.
    + rewrite !length_app, !Hcell; [lia|..];
        apply (bool_decide_unpack _); by vm_compute.
    + rewrite !length_app, !Hcell; [lia|..];
        apply (bool_decide_unpack _); by vm_compute.
    + rewrite !length_app, !Hcell; [lia|..];
        apply (bool_decide_unpack _); by vm_compute.
Qed.

Lemma display_layout_witness :
  ∃ g1 g2 g3,
    chars (display_row (parsed diag_solution)
             (display_width (parsed diag_solution)) "E")
    = g1 ++ ["|"] ++ g2 ++ ["|"] ++ g3 ∧
    length g1 = 3 * display_width (parsed diag_solution).
Proof.
  destruct (proj2 (proj2 (display_layout (parsed diag_solution))) "E")
    as (g1 & g2 & g3 & Hrow & Hlen & _).
  - apply (bool_decide_unpack _). by vm_compute.
  - exists g1, g2, g3. split; [exact Hrow|exact Hlen].
Defined.

Lemma filter_center (P : string → Prop) `{!∀ x, Decision (P x)} s width :
  ¬ P " " → filter P (chars (center s width)) = filter P (chars s).
Proof.
  intros Hspace. unfold center. case_decide; [done|]. cbv zeta.
  rewrite !chars_app, !(chars_str_mul " "), !filter_app.
  assert (∀ n, filter P (replicate n " ") = []) as Hrep.
  { intros n. induction n as [|n IH]; [done|]. simpl.
    by rewrite filter_cons_False. }
  by rewrite !Hrep, app_nil_r.
Qed.

(** X13: nothing of the grid is lost in a printed row: when the domains
    hold digits only, the row without its spaces and bars is the domains of
    its nine boxes, one after the other. *)
Theorem display_row_content values width r :
  digits_only values →
  filter (λ c, c ≠ " " ∧ c ≠ "|") (chars (display_row values width r)) =
  concat ((λ c, chars (getitem values (r +:+ c))) <$> chars COLS).
Proof.
  intros Hdig. rewrite chars_display_row.
  induction (chars COLS) as [|c cs IH]; [done|].
  rewrite !fmap_cons. cbn [concat]. rewrite !filter_app, IH. f_equal.
  rewrite filter_center by naive_solver.
  assert (filter (λ c, c ≠ " " ∧ c ≠ "|")
            (if str_in c "36" then ["|"] else []) = []) as ->.
  { destruct (str_in c "36"); [|done]. rewrite filter_cons_False; naive_solver. }
  rewrite app_nil_r. apply filter_all. intros d Hd.
  assert (d ∈ chars DIGITS) as Hdigit by (eapply elem_of_sublist; [done|apply Hdig]).
  revert Hdigit. clear. intros Hdigit. split; intros ->; revert Hdigit;
    apply (bool_decide_unpack _); by vm_compute.
Qed.

Lemma display_row_content_witness :
  filter (λ c, c ≠ " " ∧ c ≠ "|")
    (chars (display_row (parsed diag_sudoku_grid) 10 "A")) =
  concat ((λ c, chars (getitem (parsed diag_sudoku_grid) ("A" +:+ c)))
            <$> chars COLS).
Proof.
  apply (display_row_content (parsed diag_sudoku_grid) 10 "A").
  apply (grid_values_digits_only diag_sudoku_grid). by vm_compute.
Defined.

(** ** False and None *)

(** X14: [search] returns [False] exactly when the propagation of its own
    call meets a contradiction.  A failure found by branching is reported as
    [None]: then the propagation succeeded and left a box with several
    digits. *)
Theorem search_False_or_None fuel values assignments r assignments' :
  search fuel values assignments = Some (r, assignments') →
  (r = PyFalse ↔
   reduce_puzzle fuel values assignments = Some (RFalse, assignments')) ∧
  (r = PyNone →
   ∃ w l box,
     reduce_puzzle fuel values assignments = Some (RDict w, l) ∧
     box ∈ BOXES ∧ 1 < len (getitem w box)).
Proof.
  destruct fuel as [|fuel]; [done|]. rewrite search_S.
  destruct (reduce_puzzle (S fuel) values assignments) as [[[|w] l]|] eqn:Hred;
    [|..|done].
  { intros ?; simplify_eq. split; [done|]. done. }
  destruct (free_boxes w) as [|f fs] eqn:Hfree.
  { intros ?; simplify_eq. split; [|done]. split; intros; simplify_eq. }
  intros Htry. split.
  - split; [|intros; simplify_eq]. intros ->.
    apply try_values_first in Htry as [(? & ? & ? & _ & _ & _ & ?)|[? _]];
      simplify_eq.
  - intros _. exists w, l, f.2. split; [done|].
    assert (f ∈ free_boxes w) as Hf by (rewrite Hfree; by left).
    unfold free_boxes in Hf.
    apply list_elem_of_fmap in Hf as (box & -> & Hbox).
    by apply list_elem_of_filter in Hbox as [? ?].
Qed.

Lemma search_False_or_None_witness :
  ∃ w l box,
    reduce_puzzle 100 (parsed dead_end_grid) [] = Some (RDict w, l) ∧
    box ∈ BOXES ∧ 1 < len (getitem w box).
Proof.
  assert (match search 100 (parsed dead_end_grid) [] with
          | Some (PyNone, _) => true
          | _ => false
          end = true) as H by (vm_compute; reflexivity).
  destruct (search 100 (parsed dead_end_grid) []) as [[r l']|] eqn:E;
    [|discriminate H].
  destruct r; [discriminate H| |discriminate H].
  exact (proj2 (search_False_or_None 100 (parsed dead_end_grid) [] PyNone l' E)
           eq_refl).
Defined.

(** ** The shape of the board *)

(** X15: the board has 29 units of nine different boxes each; every box lies
    in exactly one row, one column and one square; and it has 20 peers, and 6
    more for each diagonal it lies on. *)
Theorem board_structure :
  length UNITLIST = 29 ∧
  Forall (λ unit, length unit = 9 ∧ NoDup unit ∧ Forall (λ box, box ∈ BOXES) unit)
    UNITLIST ∧
  Forall (λ box,
            length (filter (λ u, box ∈ u) RUNITS) = 1 ∧
            length (filter (λ u, box ∈ u) CUNITS) = 1 ∧
            length (filter (λ u, box ∈ u) SUNITS) = 1 ∧
            size (PEERS !!! box) =
              20 + 6 * length (filter (λ u, box ∈ u) DUNITS)) BOXES.
Proof. split_and!; apply (bool_decide_unpack _); by vm_compute. Qed.

(** ** search finds a solved grid when the domains hold one *)

Lemma solved_peer s cell peer :
  solved s → peer ∈ PEERS !!! cell → getitem s peer ≠ getitem s cell.
Proof.
  intros Hs (Hne & unit & Hunit & Hcell & Hpeer)%elem_of_PEERS.
  by eapply solved_distinct.
Qed.

Lemma solved_digit_box s unit digit :
  solved s → unit ∈ UNITLIST → digit ∈ chars DIGITS →
  ∃ box, box ∈ unit ∧ getitem s box = digit.
Proof.
  intros [_ Hunits] Hunit Hdigit. specialize (Hunits unit Hunit digit Hdigit).
  destruct (filter _ unit) as [|box l] eqn:E; [done|].
  assert (box ∈ filter (λ box, getitem s box = digit) unit) as Hin
    by (rewrite E; by left).
  apply list_elem_of_filter in Hin as [? ?]. eauto.
Qed.

Lemma eliminate_completes values assignments s :
  keys values = BOXES → completes values s →
  completes (eliminate values assignments).1 s.
Proof.
  intros Hkeys [Hs Hfit]. split; [done|]. intros box Hbox.
  unfold eliminate. cbv zeta. rewrite eliminate_loop_chars.
  - apply list_elem_of_filter. split; [|by apply Hfit].
    intros ([cell digit] & Heq & [Hpeer [Hlen Hin]%list_elem_of_filter]%list_elem_of_filter)%list_elem_of_fmap.
    cbn [fst snd] in *.
    assert (cell ∈ BOXES) as Hcell.
    { rewrite <-Hkeys. apply list_elem_of_fmap. by exists (cell, digit). }
    apply getitem_elem_of in Hin; [|rewrite Hkeys; apply NoDup_BOXES].
    pose proof (Hfit cell Hcell) as Hc.
    rewrite Hin, (chars_len_1 _ Hlen) in Hc. apply list_elem_of_singleton in Hc.
    apply PEERS_sym in Hpeer. apply (solved_peer s box cell Hs) in Hpeer.
    congruence.
  - apply Forall_forall. by intros cd [? _]%list_elem_of_filter.
Qed.

Lemma only_choice_completes values assignments s :
  completes values s → completes (only_choice values assignments).1 s.
Proof.
  unfold only_choice. revert values assignments.
  apply (for_each_ind (λ v, completes v s)).
  intros unit values l Hunit. revert values l.
  apply (for_each_ind (λ v, completes v s)).
  intros digit values l Hdigit [Hs Hfit]. unfold only_choice_digit. cbv zeta.
  destruct (filter _ unit) as [|box [|]] eqn:E; try done.
  rewrite assign_value_fst. split; [done|]. intros b Hb.
  rewrite getitem_setitem. case_decide as Heq; [subst b|by apply Hfit].
  destruct (solved_digit_box s unit digit Hs Hunit Hdigit) as (b0 & Hb0 & Hd).
  pose proof (elem_of_chars_len _ _ Hdigit) as Hlen.
  assert (b0 ∈ [box]) as ->%list_elem_of_singleton.
  { rewrite <-E. apply list_elem_of_filter. split; [|done].
    apply str_in_char; [done|]. rewrite <-Hd. apply Hfit.
    by eapply unit_boxes. }
  rewrite Hd, (chars_len_1 _ Hlen). by left.
Qed.

Lemma twin_digits s unit values T b :
  solved s → (∀ box, box ∈ BOXES → getitem s box ∈ chars (getitem values box)) →
  unit ∈ UNITLIST → T ∈ twins_of unit values → b ∈ unit →
  getitem s b ∈ T → frozenset (getitem values b) = T.
Proof.
  intros Hs Hfit Hunit HT Hb Hin.
  apply elem_of_twins_of in HT.
  destruct (filter _ unit) as [|b1 [|b2 [|]]] eqn:E; try done.
  assert (b1 ∈ [b1; b2] ∧ b2 ∈ [b1; b2]) as [H1 H2] by set_solver.
  rewrite <-E in H1, H2.
  apply list_elem_of_filter in H1 as [[Hlen1 HT1] Hb1].
  apply list_elem_of_filter in H2 as [[Hlen2 HT2] Hb2].
  assert (b1 ≠ b2) as Hne.
  { intros ->. pose proof (unit_NoDup unit Hunit) as Hnd.
    assert (NoDup [b2; b2]) as Hnd'
      by (rewrite <-E; by apply NoDup_filter).
    apply NoDup_cons in Hnd' as [Hnd' _]. set_solver. }
  pose proof (solved_distinct s Hs unit b1 b2 Hunit Hb1 Hb2 Hne) as Hdist.
  pose proof (Hfit b1 (unit_boxes _ _ Hunit Hb1)) as Hf1.
  pose proof (Hfit b2 (unit_boxes _ _ Hunit Hb2)) as Hf2.
  destruct (decide (b = b1)) as [->|Hn1]; [done|].
  destruct (decide (b = b2)) as [->|Hn2]; [done|].
  pose proof (solved_distinct s Hs unit b b1 Hunit Hb Hb1 Hn1) as Hd1.
  pose proof (solved_distinct s Hs unit b b2 Hunit Hb Hb2 Hn2) as Hd2.
  exfalso.
  assert (∀ x, x ∈ T ↔ x ∈ chars (getitem values b1)) as HT'.
  { intros x. rewrite <-HT1. unfold frozenset. by rewrite elem_of_list_to_set. }
  assert (getitem s b2 ∈ chars (getitem values b1)) as Hf2'.
  { apply HT'. rewrite <-HT2. unfold frozenset. by apply elem_of_list_to_set. }
  apply HT' in Hin.
  destruct (getitem values b1) as [|c1 [|c2 [|]]]; try done.
  cbn [chars] in Hf1, Hf2', Hin.
  apply elem_of_cons in Hf1 as [?|?%list_elem_of_singleton];
    apply elem_of_cons in Hf2' as [?|?%list_elem_of_singleton];
    apply elem_of_cons in Hin as [?|?%list_elem_of_singleton]; congruence.
Qed.

Lemma naked_twins_completes values assignments s :
  completes values s → completes (naked_twins values assignments).1 s.
Proof.
  unfold naked_twins. revert values assignments.
  apply (for_each_ind (λ v, completes v s)).
  intros unit values l Hunit [Hs Hfit]. split; [done|]. intros b Hb.
  rewrite naked_twins_unit_getitem by by apply unit_NoDup.
  case_decide as Hin; [|by apply Hfit].
  unfold without_twins. case_decide; [by apply Hfit|].
  case_decide as Htw; [by apply Hfit|].
  rewrite chars_remove_digits.
  - apply list_elem_of_filter. split; [|by apply Hfit].
    intros (T & HT & Hd)%elem_of_elements%elem_of_union_list.
    apply Htw. by rewrite (twin_digits s unit values T b).
  - apply Forall_forall. intros d Hd%elem_of_elements.
    apply elem_of_union_list in Hd as (T & HT & Hd).
    by eapply twins_of_digits.
Qed.

Lemma one_pass_completes values assignments s :
  keys values = BOXES → completes values s →
  completes (one_pass values assignments).1 s.
Proof.
  intros Hkeys Hc. unfold one_pass, bind.
  destruct (eliminate values assignments) as [v1 l1] eqn:E1.
  destruct (only_choice v1 l1) as [v2 l2] eqn:E2.
  change v2 with (v2, l2).1. rewrite <-E2. apply naked_twins_completes.
  apply only_choice_completes.
  change v1 with (v1, l1).1. rewrite <-E1. by apply eliminate_completes.
Qed.

Lemma completes_nonempty values s box :
  completes values s → box ∈ BOXES → getitem values box ≠ "".
Proof. intros [_ Hfit] Hbox Heq. specialize (Hfit box Hbox).
  rewrite Heq in Hfit. by apply elem_of_nil in Hfit.
Qed.

Lemma reduce_puzzle_completes fuel values assignments r assignments' s :
  keys values = BOXES → completes values s →
  reduce_puzzle fuel values assignments = Some (r, assignments') →
  ∃ v, r = RDict v ∧ completes v s.
Proof.
  revert values assignments. induction fuel as [|fuel IH]; intros values l Hkeys Hc; [done|].
  rewrite reduce_puzzle_S. cbv zeta.
  pose proof (one_pass_completes values l s Hkeys Hc) as Hc'.
  pose proof (one_pass_keys values l Hkeys) as Hkeys'.
  case_decide as Hempty.
  - exfalso. apply Hempty. apply count_len_0. intros box Hbox.
    rewrite Hkeys' in Hbox. by eapply completes_nonempty.
  - case_bool_decide; [intros ?; simplify_eq; eauto|]. by apply IH.
Qed.

Lemma completes_setitem v s box :
  completes v s → box ∈ BOXES → completes (setitem v box (getitem s box)) s.
Proof.
  intros [Hs Hfit] Hbox. split; [done|]. intros b Hb.
  rewrite getitem_setitem. case_decide as Heq; [subst b|by apply Hfit].
  rewrite (chars_len_1 (getitem s box)); [by left|].
  eapply elem_of_chars_len, Hfit, Hbox.
Qed.

Lemma shrinks_completes v w :
  solved w → shrinks v w → completes v w.
Proof.
  intros Hw Hsh. split; [done|]. intros box Hbox.
  eapply elem_of_sublist; [|apply Hsh].
  rewrite (chars_len_1 (getitem w box)); [by left|]. by apply solved_len.
Qed.

(** If the domains hold a solved grid, [search] returns a grid. *)
Lemma search_complete fuel values assignments r assignments' s :
  keys values = BOXES → completes values s →
  search fuel values assignments = Some (r, assignments') → truthy r = true.
Proof.
  revert values assignments r assignments'.
  induction fuel as [|fuel IH]; intros values l r l' Hkeys Hc; [done|].
  rewrite search_S.
  destruct (reduce_puzzle (S fuel) values l) as [[rd l1]|] eqn:Hred; [|done].
  destruct (reduce_puzzle_completes _ _ _ _ _ s Hkeys Hc Hred) as (v & -> & Hv).
  pose proof (reduce_puzzle_keys _ _ _ _ _ Hkeys Hred) as Hkeysv.
  destruct (free_boxes v) as [|f fs] eqn:Hfree.
  { intros ?; simplify_eq. destruct v; [done|done]. }
  destruct (py_min_box v f fs Hfree) as (Hbox & _ & _).
  set (box := (py_min f fs).2) in *.
  intros [(? & ? & ? & _ & _ & _ & ?)|[_ Hall]]%try_values_first; [done|].
  exfalso. rewrite Forall_forall in Hall.
  destruct (Hall (getitem s box)) as (r' & Hr' & Hfalsy); [by apply Hv|].
  unfold branch in Hr'.
  destruct (search fuel (setitem v box (getitem s box)) []) as [[r1 l2]|] eqn:Hs;
    simplify_eq/=.
  apply IH in Hs; [congruence| |by apply completes_setitem].
  rewrite keys_setitem; [done|]. by rewrite Hkeysv.
Qed.

(** C5: when [reduce_puzzle] leaves unknowns, [search] takes the box with
    the fewest digits above one, the first in row-major order among equals;
    the digits of that box are in ascending order; each is tried on the
    grid [v] with only that box set.  The value returned is the grid of the
    first digit whose call returns one: a solved grid that has that digit in
    the box and a digit of its domain in every other box, while no solved
    grid fits the domains with one of the earlier digits in the box.  It is
    [None] when no digit yields a grid, and then no solved grid fits the
    domains at all. *)
Theorem search_branches fuel values assignments v l1 :
  reachable values →
  82 + total_len values ≤ S fuel →
  reduce_puzzle (S fuel) values assignments = Some (RDict v, l1) →
  (∃ box, box ∈ BOXES ∧ 1 < len (getitem v box)) →
  ∃ i box r assignments',
    BOXES !! i = Some box ∧ 1 < len (getitem v box) ∧
    (∀ j box', BOXES !! j = Some box' → 1 < len (getitem v box') →
       len (getitem v box) ≤ len (getitem v box') ∧
       (len (getitem v box') = len (getitem v box) → i ≤ j)) ∧
    StronglySorted str_lt (chars (getitem v box)) ∧
    search (S fuel) values assignments = Some (r, assignments') ∧
    ((∃ ds1 d ds2 w,
        chars (getitem v box) = ds1 ++ d :: ds2 ∧
        Forall (λ d', (∃ r', branch fuel v box d' = Some r' ∧ truthy r' = false) ∧
                      ¬ ∃ s, completes (setitem v box d') s) ds1 ∧
        branch fuel v box d = Some r ∧ r = PyDict w ∧ solved w ∧
        keys w = BOXES ∧ completes (setitem v box d) w ∧ completes values w) ∨
     (r = PyNone ∧
      Forall (λ d', (∃ r', branch fuel v box d' = Some r' ∧ truthy r' = false) ∧
                    ¬ ∃ s, completes (setitem v box d') s)
        (chars (getitem v box)) ∧
      ¬ ∃ s, completes values s)).
Proof.
  intros Hreach Hfuel Hred (box0 & Hbox0 & Hlen0).
  pose proof (reachable_keys _ Hreach) as Hkeys.
  pose proof (reachable_digits_only _ Hreach) as Hdig.
  pose proof (reduce_puzzle_shrinks _ _ _ _ _ Hred) as Hsh.
  pose proof (reduce_puzzle_keys _ _ _ _ _ Hkeys Hred) as Hkeysv.
  pose proof (shrinks_digits_only _ _ Hsh Hdig) as Hdigv.
  destruct (search_total (S fuel) values assignments Hkeys Hfuel) as (r & l' & Hr).
  pose proof Hr as Hr'. rewrite search_S, Hred in Hr'.
  destruct (free_boxes v) as [|f fs] eqn:Hfree.
  { assert ((len (getitem v box0), box0) ∈ free_boxes v) as Hin
      by (apply elem_of_free_boxes; eauto).
    rewrite Hfree in Hin. by apply elem_of_nil in Hin. }
  destruct (py_min_box v f fs Hfree) as (Hbox & Hlen & Hn).
  set (box := (py_min f fs).2) in *.
  assert (∀ d, keys (setitem v box d) = BOXES) as Hkeysd.
  { intros d. rewrite keys_setitem; [done|]. by rewrite Hkeysv. }
  assert (∀ ds, Forall (λ d', ∃ r', branch fuel v box d' = Some r' ∧
                                   truthy r' = false) ds →
                Forall (λ d', (∃ r', branch fuel v box d' = Some r' ∧
                                     truthy r' = false) ∧
                              ¬ ∃ s, completes (setitem v box d') s) ds) as Hdead.
  { intros ds Hds. eapply Forall_impl; [exact Hds|]. cbv beta.
    intros d' (r' & Hr'' & Hfalsy).
    split; [by eauto|]. intros [s Hs]. unfold branch in Hr''.
    destruct (search fuel (setitem v box d') []) as [[r1 l2]|] eqn:Hsd;
      simplify_eq/=.
    apply (search_complete _ _ _ _ _ s) in Hsd; [congruence|done|done]. }
  apply list_elem_of_lookup in Hbox as [i Hi].
  exists i, box, r, l'. split_and!; [done|done| | |done|].
  - intros j box' Hj Hlen'.
    assert ((len (getitem v box'), box') ∈ f :: fs) as Hin.
    { rewrite <-Hfree. apply elem_of_free_boxes. exists box'.
      split_and!; [done|done|by eapply list_elem_of_lookup_2]. }
    apply (py_min_least f fs) in Hin. unfold free_lt in Hin.
    apply orb_false_iff in Hin as [Hlt Htie]. apply Nat.ltb_ge in Hlt.
    cbn [fst snd] in *. rewrite Hn in Hlt, Htie. fold box in Htie.
    split; [done|]. intros Heq. rewrite Heq, Nat.eqb_refl in Htie.
    cbn [andb] in Htie. apply Nat.nlt_ge. intros Hji.
    pose proof (BOXES_lookup_lt _ _ _ _ Hi Hj Hji) as Hlt'.
    unfold str_lt in Hlt'. congruence.
  - eapply sublist_StronglySorted; [apply Hdigv|apply chars_DIGITS_sorted].
  - apply try_values_first in Hr' as [(ds1 & d & ds2 & Hvs & Hds1 & Hd & Htruthy)|[-> Hall]].
    + left. destruct r as [| |w]; try done. exists ds1, d, ds2, w.
      unfold branch in Hd.
      destruct (search fuel (setitem v box d) []) as [[r1 l2]|] eqn:Hs; simplify_eq/=.
      assert (d ∈ chars (getitem v box)) as Hdin
        by (rewrite Hvs, elem_of_app, elem_of_cons; auto).
      destruct (search_sound _ _ _ _ _ (Hkeysd d)
                  (shrinks_digits_only _ _ (setitem_value_shrinks _ _ _ Hdin) Hdigv)
                  Hs) as (Hw & Hshw & Hkeysw).
      split_and!; try done;
        [by apply Hdead|unfold branch; by rewrite Hs|..];
        apply shrinks_completes; try done.
      intros b. etrans; [apply Hshw|]. etrans; [|apply Hsh].
      by apply setitem_value_shrinks.
    + right. split_and!; [done|by apply Hdead|].
      intros [s Hs].
      destruct (reduce_puzzle_completes _ _ _ _ _ s Hkeys Hs Hred)
        as (v' & [= <-] & Hv).
      apply Hdead in Hall. rewrite Forall_forall in Hall.
      destruct (Hall (getitem s box)) as [_ Hno].
      * apply Hv. by eapply list_elem_of_lookup_2.
      * apply Hno. exists s. apply completes_setitem; [done|].
        by eapply list_elem_of_lookup_2.
Qed.

Lemma search_branches_witness :
  ∃ values v l1 box d w,
    grid_values branch_grid = Returns values ∧
    reduce_puzzle 811 values [] = Some (RDict v, l1) ∧
    1 < len (getitem v box) ∧ d ∈ chars (getitem v box) ∧
    (∃ assignments', search 811 values [] = Some (PyDict w, assignments')) ∧
    completes (setitem v box d) w.
Proof.
  assert (match grid_values branch_grid with
          | Returns values =>
              match reduce_puzzle 811 values [] with
              | Some (RDict v, _) =>
                  bool_decide (1 < len (getitem v "A3")) &&
                  match search 811 values [] with
                  | Some (PyDict _, _) => true
                  | _ => false
                  end
              | _ => false
              end
          | _ => false
          end = true) as H by (vm_compute; reflexivity).
  destruct (grid_values branch_grid) as [values|] eqn:Hgv; [|discriminate H].
  destruct (reduce_puzzle 811 values []) as [[[|v] l1]|] eqn:Hred;
    [discriminate H| |discriminate H].
  apply andb_true_iff in H as [Hopen Hres]. apply bool_decide_eq_true in Hopen.
  destruct (search_branches 810 values [] v l1)
    as (i & box & r & l' & _ & Hlen & _ & _ & Hr & Hcases).
  - by eapply reachable_parsed.
  - pose proof (total_len_digits_only values
                  (proj2 (grid_values_digits_only _ _ Hgv))). lia.
  - exact Hred.
  - exists "A3". split; [|exact Hopen]. apply (bool_decide_unpack _). by vm_compute.
  - rewrite Hr in Hres.
    destruct Hcases as [(ds1 & d & ds2 & w & Hvs & _ & _ & -> & _ & _ & Hw & _)
                       |[-> _]]; [|discriminate Hres].
    exists values, v, l1, box, d, w. split_and!; [reflexivity|exact Hred|exact Hlen| |by exists l'|exact Hw].
    rewrite Hvs, elem_of_app, elem_of_cons. auto.
Defined.
